(** * Tessellation of the sphere and the torus (DisplayableSphere.py, DisplayableTorus.py)

    Shallow embedding of [DisplayableSphere.generate] and
    [DisplayableTorus.generate].

    Modelling choices:
    - Python floats and numpy float64 values are modelled by exact real
      numbers ([R]); [math.cos], [np.cos], ... by [cos], [sin].  Geometric
      statements therefore hold for the exact values that the double
      computations approximate.
    - Python integers are [Z].
    - A raised Python exception (ZeroDivisionError, numpy ValueError,
      IndexError) is [None] of the option monad [M].
    - The instance attributes written by [generate] ([self.radius],
      [self.vertices], ...) are returned as a record: the record is the
      state of the instance after the call.
    - A numpy array of shape (N, 11) is a list of N [vertex] records; an
      array of shape (N, 6) is a list of N rows (lists of 6 integers), and
      [flatten("C")] is [concat]. *)

From Stdlib Require Import Reals Lra Lia ZArith List Bool.
From Stdlib Require Ascii String.
Import ListNotations.
Open Scope Z_scope.

(** ** Exceptions *)

Definition M (A : Type) : Type := option A.
Definition ret {A} (x : A) : M A := Some x.
Definition raise {A} : M A := None.
Definition bind {A B} (m : M A) (k : A -> M B) : M B :=
  match m with Some x => k x | None => None end.

Notation "x <- m ;; k" := (bind m (fun x => k))
  (at level 61, m at next level, right associativity).

(** Python's true division [a / b] of two ints: ZeroDivisionError when
    [b = 0]. *)
Definition py_div (a b : Z) : M R :=
  if Z.eqb b 0 then raise else ret (IZR a / IZR b)%R.

(** ** numpy helpers *)

(** [np.zeros(n)] along the first axis: ValueError on a negative size. *)
Definition np_zeros {A} (z : A) (n : Z) : M (list A) :=
  if (n <? 0)%Z then raise else ret (repeat z (Z.to_nat n)).

(** [np.linspace(start, stop, num)]: ValueError when [num < 0]; the samples
    are [start + k * step] with [step = (stop - start) / (num - 1)], and for
    [num > 1] the last one is overwritten by [stop]. For [num = 1] numpy
    returns [[start]]. *)
Definition linspace_samples (start stop : R) (num : Z) : list R :=
  let n := Z.to_nat num in
  let step := if (1 <? num)%Z then ((stop - start) / IZR (num - 1)%Z)%R else 0%R in
  map (fun k => if (1 <? num)%Z && Nat.eqb k (n - 1)
                then stop else (start + INR k * step)%R)
      (seq 0 n).

Definition linspace (start stop : R) (num : Z) : M (list R) :=
  if (num <? 0)%Z then raise else ret (linspace_samples start stop num).

(** [np.sign]. *)
Definition np_sign (x : R) : R :=
  if Rlt_dec 0 x then 1%R else if Rlt_dec x 0 then (-1)%R else 0%R.

(** Pure update of position [k] of a list (no effect out of range). *)
Fixpoint list_set {A} (l : list A) (k : nat) (x : A) : list A :=
  match l, k with
  | [], _ => []
  | _ :: t, O => x :: t
  | h :: t, S k' => h :: list_set t k' x
  end.

(** [a[k] = x] on the first axis of a numpy array: negative indices count
    from the end, IndexError out of range. *)
Definition setitem {A} (l : list A) (k : Z) (x : A) : M (list A) :=
  let n := Z.of_nat (length l) in
  if (0 <=? k)%Z && (k <? n)%Z then ret (list_set l (Z.to_nat k) x)
  else if (- n <=? k)%Z && (k <? 0)%Z then ret (list_set l (Z.to_nat (n + k)) x)
  else raise.

(** [for k, x in enumerate(xs, start=k0): s = body(k, x, s)]. *)
Fixpoint for_enumerate {X S} (body : Z -> X -> S -> M S) (k : Z)
    (xs : list X) (s : S) : M S :=
  match xs with
  | [] => ret s
  | x :: xs' => bind (body k x s) (for_enumerate body (k + 1) xs')
  end.

(** ** Data model *)

(** One row of [self.vertices]: position, normal, color, texture coordinate. *)
Record vertex := mkVertex {
  vx : R; vy : R; vz : R;
  vnx : R; vny : R; vnz : R;
  vcr : R; vcg : R; vcb : R;
  vtu : R; vtv : R }.

Definition zero_vertex : vertex := mkVertex 0 0 0 0 0 0 0 0 0 0 0.
Definition zero_row : list Z := [0; 0; 0; 0; 0; 0]%Z.

Definition color : Type := (R * R * R)%type.

Definition grid_state : Type := (list vertex * list (list Z))%type.

(** ** DisplayableSphere.generate *)

Record Sphere := mkSphere {
  s_radius : R; s_slices : Z; s_stacks : Z; s_color : color;
  s_vertices : list vertex; s_indices : list Z }.

(** Body of the inner loop, for grid position [(i, j)] with parameters
    [phi], [theta]. *)
Definition sphere_cell (radius : R) (slices stacks slices_1 stacks_1 : Z)
    (c : color) (i : Z) (phi : R) (j : Z) (theta : R) (st : grid_state)
    : M grid_state :=
  let '(vertices, indices) := st in
  let '(cr, cg, cb) := c in
  let x := (radius * cos phi * cos theta)%R in
  let y := (radius * cos phi * sin theta)%R in
  let z := (radius * sin phi)%R in
  let nx := (cos phi * cos theta)%R in
  let ny := (cos phi * sin theta)%R in
  let nz := sin phi in
  let i_by_j := (i * stacks_1 + j)%Z in
  tu <- py_div j stacks ;;
  tv <- py_div i slices ;;
  vertices <- setitem vertices i_by_j (mkVertex x y z nx ny nz cr cg cb tu tv) ;;
  let ip1_by_j := (((i + 1) mod slices_1) * stacks_1 + j)%Z in
  let i_by_jp1 := (i * stacks_1 + ((j + 1) mod stacks_1))%Z in
  let ip1_by_jp1 := (((i + 1) mod slices_1) * stacks_1 + ((j + 1) mod stacks_1))%Z in
  indices <- setitem indices i_by_j
               [i_by_j; ip1_by_j; i_by_jp1; ip1_by_jp1; ip1_by_j; i_by_jp1] ;;
  ret (vertices, indices).

(** [if n < 3: n = 3] *)
Definition clamp3 (n : Z) : Z := if (n <? 3)%Z then 3%Z else n.

Definition sphere_generate (radius : R) (slices stacks : Z) (c : color)
    : M Sphere :=
  let slices := clamp3 slices in
  let stacks := clamp3 stacks in
  let pi := PI in
  let slices_1 := (slices + 1)%Z in
  let stacks_1 := (stacks + 1)%Z in
  vertices <- np_zeros zero_vertex (slices_1 * stacks_1) ;;
  indices <- np_zeros zero_row (slices_1 * stacks_1) ;;
  phis <- linspace (- pi / 2)%R (pi / 2)%R slices_1 ;;
  st <- for_enumerate
          (fun i phi st =>
             thetas <- linspace (- pi)%R pi stacks_1 ;;
             for_enumerate (sphere_cell radius slices stacks slices_1 stacks_1 c i phi)
               0 thetas st)
          0 phis (vertices, indices) ;;
  ret {| s_radius := radius; s_slices := slices; s_stacks := stacks;
         s_color := c; s_vertices := fst st; s_indices := concat (snd st) |}.

(** ** DisplayableTorus.generate *)

Record Torus := mkTorus {
  t_innerRadius : R; t_outerRadius : R; t_nsides : Z; t_rings : Z;
  t_color : color; t_vertices : list vertex; t_indices : list Z }.

(** [if innerRadius > outerRadius: innerRadius, outerRadius = outerRadius, innerRadius] *)
Definition order_radii (innerRadius outerRadius : R) : R * R :=
  if Rlt_dec outerRadius innerRadius then (outerRadius, innerRadius)
  else (innerRadius, outerRadius).

Definition torus_cell (a b : R) (nsides rings nsides_1 rings_1 : Z)
    (c : color) (i : Z) (u : R) (j : Z) (v : R) (st : grid_state)
    : M grid_state :=
  let '(vertices, indices) := st in
  let '(cr, cg, cb) := c in
  let cos_u := cos u in
  let sin_u := sin u in
  let cos_v := cos v in
  let sin_v := sin v in
  let comm_patt := (a + b * cos_v)%R in
  let x := (comm_patt * cos_u)%R in
  let y := (comm_patt * sin_u)%R in
  let z := (b * sin_v)%R in
  let i_by_j := (i * rings_1 + j)%Z in
  let nx := (np_sign b * cos_u * cos_v * np_sign comm_patt)%R in
  let ny := (np_sign b * sin_u * cos_v * np_sign comm_patt)%R in
  let nz := (np_sign b * sin_v * np_sign comm_patt)%R in
  tu <- py_div i nsides ;;
  tv <- py_div j rings ;;
  vertices <- setitem vertices i_by_j (mkVertex x y z nx ny nz cr cg cb tu tv) ;;
  let i_by_jp1 := (i * rings_1 + ((j + 1) mod rings_1))%Z in
  let ip1_by_j := (((i + 1) mod nsides_1) * rings_1 + j)%Z in
  let ip1_by_jp1 := (((i + 1) mod nsides_1) * rings_1 + ((j + 1) mod rings_1))%Z in
  indices <- setitem indices i_by_j
               [i_by_j; ip1_by_j; i_by_jp1; ip1_by_jp1; ip1_by_j; i_by_jp1] ;;
  ret (vertices, indices).

Definition torus_generate (innerRadius outerRadius : R) (nsides rings : Z)
    (c : color) : M Torus :=
  let '(innerRadius, outerRadius) := order_radii innerRadius outerRadius in
  let a := ((outerRadius + innerRadius) / 2)%R in
  let b := ((outerRadius - innerRadius) / 2)%R in
  if Req_EM_T b 0 then
    ret {| t_innerRadius := innerRadius; t_outerRadius := outerRadius;
           t_nsides := nsides; t_rings := rings; t_color := c;
           t_vertices := []; t_indices := [] |}
  else
  let nsides_1 := (nsides + 1)%Z in
  let rings_1 := (rings + 1)%Z in
  vertices <- np_zeros zero_vertex (nsides_1 * rings_1) ;;
  indices <- np_zeros zero_row (nsides_1 * rings_1) ;;
  let pi := PI in
  us <- linspace (- pi)%R pi nsides_1 ;;
  st <- for_enumerate
          (fun i u st =>
             vs <- linspace (- pi)%R pi rings_1 ;;
             for_enumerate (torus_cell a b nsides rings nsides_1 rings_1 c i u) 0 vs st)
          0 us (vertices, indices) ;;
  ret {| t_innerRadius := innerRadius; t_outerRadius := outerRadius;
         t_nsides := nsides; t_rings := rings; t_color := c;
         t_vertices := fst st; t_indices := concat (snd st) |}.

(** ** The grid filled by the nested loops *)

(** [enumerate(xs, start=k)] as a list. *)
Fixpoint enumerate {X} (k : Z) (xs : list X) : list (Z * X) :=
  match xs with
  | [] => []
  | x :: t => (k, x) :: enumerate (k + 1) t
  end.

(** The rows [F i x j y] in row-major order of the grid [xs] x [ys]. *)
Definition grid_map {X V} (xs ys : list X) (F : Z -> X -> Z -> X -> V) : list V :=
  flat_map (fun ix => map (fun jy => F (fst ix) (snd ix) (fst jy) (snd jy))
                          (enumerate 0 ys))
           (enumerate 0 xs).

Lemma enumerate_length {X} (xs : list X) k : length (enumerate k xs) = length xs.
Proof. revert k; induction xs; intros; simpl; auto. Qed.

Lemma list_set_length {A} (l : list A) k x : length (list_set l k x) = length l.
Proof. revert k; induction l; intros [|k]; simpl; auto. Qed.

Lemma list_set_app_cons {A} (P R : list A) z x :
  list_set (P ++ z :: R) (length P) x = P ++ x :: R.
Proof. induction P; simpl; congruence. Qed.

Lemma app_snoc_cons {A} (l r : list A) x : l ++ x :: r = (l ++ [x]) ++ r.
Proof. rewrite <- app_assoc. reflexivity. Qed.

Section GridLoop.

Variables X V W : Type.
Variables (zv : V) (zw : W).
Variables (xs ys : list X) (Y : M (list X)).
Hypothesis HY : Y = Some ys.
Variable body : Z -> X -> Z -> X -> list V * list W -> M (list V * list W).
Variables (Fv : Z -> X -> Z -> X -> V) (Fw : Z -> X -> Z -> X -> W).

(** One step of the inner loop writes row [i * |ys| + j] of both arrays. *)
Hypothesis Hbody : forall i x j y vs ws,
  0 <= i < Z.of_nat (length xs) -> 0 <= j < Z.of_nat (length ys) ->
  length vs = (length xs * length ys)%nat ->
  length ws = (length xs * length ys)%nat ->
  body i x j y (vs, ws) =
  Some (list_set vs (Z.to_nat (i * Z.of_nat (length ys) + j)) (Fv i x j y),
        list_set ws (Z.to_nat (i * Z.of_nat (length ys) + j)) (Fw i x j y)).

Definition inner_rows {T} (F : Z -> X -> Z -> X -> T) i x k l :=
  map (fun jy => F i x (fst jy) (snd jy)) (enumerate k l).

Lemma inner_loop : forall (i : nat) x (l : list X) (j0 : nat) P Q m,
  (i < length xs)%nat -> (j0 + length l = length ys)%nat ->
  length P = (i * length ys + j0)%nat -> length Q = length P ->
  (length P + m = length xs * length ys)%nat ->
  for_enumerate (body (Z.of_nat i) x) (Z.of_nat j0) l
    (P ++ repeat zv m, Q ++ repeat zw m)
  = Some (P ++ inner_rows Fv (Z.of_nat i) x (Z.of_nat j0) l ++ repeat zv (m - length l),
          Q ++ inner_rows Fw (Z.of_nat i) x (Z.of_nat j0) l ++ repeat zw (m - length l)).
Proof.
  intros i x l; induction l as [|y l IH]; intros j0 P Q m Hi Hl HP HQ Hm.
  - simpl. rewrite Nat.sub_0_r. reflexivity.
  - simpl in Hl.
    assert (Hlt : (length P < length xs * length ys)%nat) by nia.
    destruct m as [|m]; [lia|].
    simpl for_enumerate. simpl repeat.
    rewrite Hbody by (rewrite ?length_app; simpl; rewrite ?repeat_length; lia).
    replace (Z.to_nat (Z.of_nat i * Z.of_nat (length ys) + Z.of_nat j0))
      with (length P) by lia.
    rewrite list_set_app_cons.
    rewrite <- HQ, list_set_app_cons.
    unfold bind.
    replace (Z.of_nat j0 + 1) with (Z.of_nat (S j0)) by lia.
    rewrite (app_snoc_cons P), (app_snoc_cons Q).
    rewrite (IH (S j0) (P ++ [Fv (Z.of_nat i) x (Z.of_nat j0) y])
                (Q ++ [Fw (Z.of_nat i) x (Z.of_nat j0) y]) m)
      by (rewrite ?length_app; simpl; lia).
    unfold inner_rows; simpl.
    replace (Z.of_nat j0 + 1) with (Z.of_nat (S j0)) by lia.
    rewrite <- !app_assoc. reflexivity.
Qed.

Definition outer_body (i : Z) (x : X) (st : list V * list W) :=
  ys' <- Y ;; for_enumerate (body i x) 0 ys' st.

Definition outer_rows {T} (F : Z -> X -> Z -> X -> T) k l :=
  flat_map (fun ix => inner_rows F (fst ix) (snd ix) 0 ys) (enumerate k l).

Lemma outer_loop : forall (l : list X) (i0 : nat) P Q m,
  (i0 + length l = length xs)%nat ->
  length P = (i0 * length ys)%nat -> length Q = length P ->
  (length P + m = length xs * length ys)%nat ->
  for_enumerate outer_body (Z.of_nat i0) l (P ++ repeat zv m, Q ++ repeat zw m)
  = Some (P ++ outer_rows Fv (Z.of_nat i0) l ++ repeat zv (m - length l * length ys),
          Q ++ outer_rows Fw (Z.of_nat i0) l ++ repeat zw (m - length l * length ys)).
Proof.
  intro l; induction l as [|x l IH]; intros i0 P Q m Hl HP HQ Hm.
  - simpl. rewrite Nat.sub_0_r. reflexivity.
  - simpl in Hl. simpl for_enumerate. unfold outer_body at 1. rewrite HY.
    unfold bind at 2.
    change 0 with (Z.of_nat 0).
    rewrite inner_loop by lia.
    unfold bind.
    rewrite !app_assoc.
    replace (Z.of_nat i0 + 1) with (Z.of_nat (S i0)) by lia.
    assert (Hr : forall T (F : Z -> X -> Z -> X -> T),
               length (inner_rows F (Z.of_nat i0) x (Z.of_nat 0) ys) = length ys).
    { intros. unfold inner_rows. rewrite length_map, enumerate_length. reflexivity. }
    rewrite IH by (rewrite ?length_app, ?Hr; nia).
    unfold outer_rows at 3 4; simpl.
    replace (Z.of_nat i0 + 1) with (Z.of_nat (S i0)) by lia.
    rewrite <- !app_assoc, Nat.sub_add_distr. reflexivity.
Qed.

Lemma grid_loop :
  for_enumerate outer_body 0 xs
    (repeat zv (length xs * length ys), repeat zw (length xs * length ys))
  = Some (grid_map xs ys Fv, grid_map xs ys Fw).
Proof.
  change 0 with (Z.of_nat 0).
  rewrite <- (app_nil_l (repeat zv _)), <- (app_nil_l (repeat zw _)).
  rewrite outer_loop by (simpl; lia).
  rewrite Nat.sub_diag. simpl. rewrite !app_nil_r. reflexivity.
Qed.

End GridLoop.

(** ** Facts on the numpy helpers *)

Lemma nth_map_lt {A B} (f : A -> B) (l : list A) k d d' :
  (k < length l)%nat -> nth k (map f l) d = f (nth k l d').
Proof. revert k; induction l; intros [|k] H; simpl in *; try lia; auto with arith. Qed.

Lemma linspace_ok a b num : 0 <= num -> linspace a b num = Some (linspace_samples a b num).
Proof. intros H. unfold linspace. destruct (Z.ltb_spec num 0); [lia | reflexivity]. Qed.

Lemma linspace_samples_length a b num :
  length (linspace_samples a b num) = Z.to_nat num.
Proof. unfold linspace_samples. rewrite length_map, length_seq. reflexivity. Qed.

Lemma linspace_first a b num : 1 <= num -> nth 0 (linspace_samples a b num) 0%R = a.
Proof.
  intros H. unfold linspace_samples.
  destruct (Z.to_nat num) as [|n] eqn:E; [lia|].
  simpl. destruct (Z.ltb_spec 1 num); simpl.
  - destruct n as [|n]; [lia|]. simpl. lra.
  - lra.
Qed.

Lemma linspace_last a b num : 2 <= num ->
  nth (Z.to_nat num - 1) (linspace_samples a b num) 0%R = b.
Proof.
  intros H. unfold linspace_samples.
  rewrite (nth_map_lt _ _ _ _ 0%nat) by (rewrite length_seq; lia).
  rewrite seq_nth by lia. simpl.
  destruct (Z.ltb_spec 1 num); [|lia]. rewrite Nat.eqb_refl. reflexivity.
Qed.

Lemma linspace_nth a b num k : 2 <= num -> (k < Z.to_nat num - 1)%nat ->
  nth k (linspace_samples a b num) 0%R = (a + INR k * ((b - a) / IZR (num - 1)))%R.
Proof.
  intros H Hk. unfold linspace_samples.
  rewrite (nth_map_lt _ _ _ _ 0%nat) by (rewrite length_seq; lia).
  rewrite seq_nth by lia. simpl.
  destruct (Z.ltb_spec 1 num); [|lia].
  replace (Nat.eqb k (Z.to_nat num - 1)) with false
    by (symmetry; apply Nat.eqb_neq; lia).
  reflexivity.
Qed.

Lemma setitem_in {A} (l : list A) k x :
  0 <= k < Z.of_nat (length l) -> setitem l k x = Some (list_set l (Z.to_nat k) x).
Proof.
  intros H. unfold setitem.
  destruct (Z.leb_spec 0 k); [|lia]. destruct (Z.ltb_spec k (Z.of_nat (length l))); [|lia].
  reflexivity.
Qed.

Lemma clamp3_ge n : 3 <= clamp3 n.
Proof. unfold clamp3. destruct (Z.ltb_spec n 3); lia. Qed.

Lemma clamp3_id n : 3 <= n -> clamp3 n = n.
Proof. unfold clamp3. destruct (Z.ltb_spec n 3); lia. Qed.

(** ** Closed form of the generated grid *)

(** Row [i * B + j] of [self.indices] before flattening, as written by both
    [generate] methods (A, B: the grid sizes [slices_1, stacks_1] or
    [nsides_1, rings_1]). *)
Definition cell_row (A B i j : Z) : list Z :=
  let i_by_j := i * B + j in
  let ip1_by_j := ((i + 1) mod A) * B + j in
  let i_by_jp1 := i * B + ((j + 1) mod B) in
  let ip1_by_jp1 := ((i + 1) mod A) * B + ((j + 1) mod B) in
  [i_by_j; ip1_by_j; i_by_jp1; ip1_by_jp1; ip1_by_j; i_by_jp1].

(** Row [i * stacks_1 + j] of [self.vertices] of the sphere. *)
Definition sphere_vertex (radius : R) (slices stacks : Z) (c : color)
    (i : Z) (phi : R) (j : Z) (theta : R) : vertex :=
  let '(cr, cg, cb) := c in
  mkVertex (radius * cos phi * cos theta) (radius * cos phi * sin theta)
           (radius * sin phi)
           (cos phi * cos theta) (cos phi * sin theta) (sin phi)
           cr cg cb (IZR j / IZR stacks) (IZR i / IZR slices).

Definition sphere_phis (slices : Z) : list R :=
  linspace_samples (- PI / 2) (PI / 2) (slices + 1).
Definition sphere_thetas (stacks : Z) : list R :=
  linspace_samples (- PI) PI (stacks + 1).

Lemma sphere_cell_write radius slices stacks c i phi j theta vs ws :
  slices <> 0 -> stacks <> 0 -> 0 <= i -> 0 <= j < stacks + 1 ->
  0 <= i * (stacks + 1) + j < Z.of_nat (length vs) -> length ws = length vs ->
  sphere_cell radius slices stacks (slices + 1) (stacks + 1) c i phi j theta (vs, ws)
  = Some (list_set vs (Z.to_nat (i * (stacks + 1) + j))
            (sphere_vertex radius slices stacks c i phi j theta),
          list_set ws (Z.to_nat (i * (stacks + 1) + j))
            (cell_row (slices + 1) (stacks + 1) i j)).
Proof.
  intros Hs Ht Hi Hj Hk Hl. destruct c as [[cr cg] cb].
  unfold sphere_cell, py_div.
  destruct (Z.eqb_spec stacks 0); [lia|]. destruct (Z.eqb_spec slices 0); [lia|].
  cbn [bind ret]. rewrite setitem_in by lia. cbn [bind ret].
  rewrite setitem_in by lia. reflexivity.
Qed.

(** The sphere computed by [sphere_generate], in closed form. *)
Definition sphere_mesh (radius : R) (slices stacks : Z) (c : color) : Sphere :=
  let s := clamp3 slices in
  let t := clamp3 stacks in
  {| s_radius := radius; s_slices := s; s_stacks := t; s_color := c;
     s_vertices := grid_map (sphere_phis s) (sphere_thetas t)
                     (fun i phi j theta => sphere_vertex radius s t c i phi j theta);
     s_indices := concat (grid_map (sphere_phis s) (sphere_thetas t)
                     (fun i _ j _ => cell_row (s + 1) (t + 1) i j)) |}.

Lemma sphere_generate_eq radius slices stacks c :
  sphere_generate radius slices stacks c = Some (sphere_mesh radius slices stacks c).
Proof.
  unfold sphere_mesh. set (s := clamp3 slices). set (t := clamp3 stacks).
  unfold sphere_generate. fold s t.
  pose proof (clamp3_ge slices) as Hs. pose proof (clamp3_ge stacks) as Ht.
  fold s in Hs. fold t in Ht.
  unfold np_zeros. destruct (Z.ltb_spec ((s + 1) * (t + 1)) 0); [nia|].
  cbn [bind ret].
  rewrite (linspace_ok (- PI / 2) (PI / 2) (s + 1)) by lia. cbn [bind ret].
  pose proof (grid_loop R vertex (list Z) zero_vertex zero_row
                (sphere_phis s) (sphere_thetas t) (linspace (- PI) PI (t + 1))
                (linspace_ok (- PI) PI (t + 1) ltac:(lia))
                (sphere_cell radius s t (s + 1) (t + 1) c)
                (fun i phi j theta => sphere_vertex radius s t c i phi j theta)
                (fun i _ j _ => cell_row (s + 1) (t + 1) i j)) as G.
  unfold outer_body, sphere_phis, sphere_thetas in G.
  rewrite !linspace_samples_length in G.
  replace (Z.to_nat ((s + 1) * (t + 1)))
    with (Z.to_nat (s + 1) * Z.to_nat (t + 1))%nat by lia.
  unfold grid_state. rewrite G. reflexivity.
  intros i x j y vs ws Hi Hj Hvs Hws.
  try rewrite !linspace_samples_length in *.
  rewrite Z2Nat.id by lia.
  apply sphere_cell_write; try lia. rewrite Hvs. rewrite Nat2Z.inj_mul, !Z2Nat.id in * by lia. nia.
Qed.

(** ** Shape of the grid *)

Lemma in_enumerate {X} (l : list X) k i x :
  In (i, x) (enumerate k l) -> k <= i < k + Z.of_nat (length l).
Proof.
  revert k; induction l as [|y l IH]; intros k H; simpl in H; [contradiction|].
  destruct H as [H|H].
  - inversion H; subst. simpl length. lia.
  - apply IH in H. simpl length. lia.
Qed.

Lemma nth_enumerate {X} (l : list X) k n d dx :
  (n < length l)%nat -> nth n (enumerate k l) d = (k + Z.of_nat n, nth n l dx).
Proof.
  revert k n; induction l as [|y l IH]; intros k [|n] H; simpl in *; try lia.
  - f_equal. lia.
  - rewrite IH by lia. f_equal. lia.
Qed.

Lemma grid_map_length {X V} (xs ys : list X) (F : Z -> X -> Z -> X -> V) :
  length (grid_map xs ys F) = (length xs * length ys)%nat.
Proof.
  unfold grid_map. generalize 0 at 2. induction xs as [|x xs IH]; intros k; simpl; auto.
  rewrite length_app, length_map, enumerate_length, IH. reflexivity.
Qed.

Lemma in_grid_map {X V} (xs ys : list X) (F : Z -> X -> Z -> X -> V) v :
  In v (grid_map xs ys F) ->
  exists i x j y, 0 <= i < Z.of_nat (length xs) /\ 0 <= j < Z.of_nat (length ys) /\
                  v = F i x j y.
Proof.
  unfold grid_map. intros H. apply in_flat_map in H as [[i x] [Hi H]].
  apply in_map_iff in H as [[j y] [E Hj]].
  apply in_enumerate in Hi. apply in_enumerate in Hj. simpl in *.
  exists i, x, j, y. repeat split; auto; lia.
Qed.

Lemma nth_grid_map {X V} (xs ys : list X) (F : Z -> X -> Z -> X -> V) i j d dx :
  (i < length xs)%nat -> (j < length ys)%nat ->
  nth (i * length ys + j) (grid_map xs ys F) d =
  F (Z.of_nat i) (nth i xs dx) (Z.of_nat j) (nth j ys dx).
Proof.
  unfold grid_map. intros Hi Hj.
  assert (G : forall k, nth (i * length ys + j)
    (flat_map (fun ix => map (fun jy => F (fst ix) (snd ix) (fst jy) (snd jy))
                             (enumerate 0 ys)) (enumerate k xs)) d
    = F (k + Z.of_nat i) (nth i xs dx) (Z.of_nat j) (nth j ys dx)).
  { revert i Hi. induction xs as [|x xs IH]; intros i Hi k; simpl in *; [lia|].
    destruct i as [|i].
    - rewrite app_nth1 by (rewrite length_map, enumerate_length; lia).
      rewrite (nth_map_lt _ _ _ _ (0, dx)) by (rewrite enumerate_length; lia).
      rewrite (nth_enumerate _ _ _ _ dx) by lia. simpl. f_equal; lia.
    - rewrite app_nth2 by (rewrite length_map, enumerate_length; lia).
      rewrite length_map, enumerate_length.
      replace (S i * length ys + j - length ys)%nat with (i * length ys + j)%nat by nia.
      rewrite IH by lia. f_equal. lia. }
  rewrite G. f_equal.
Qed.

Lemma length_concat_rows (L : list (list Z)) :
  (forall r, In r L -> length r = 6%nat) -> length (concat L) = (6 * length L)%nat.
Proof.
  induction L as [|r L IH]; intros H; simpl; auto.
  rewrite length_app, H by (left; auto). rewrite IH by (intros; apply H; right; auto). lia.
Qed.

Lemma cell_row_range A B i j k :
  0 <= i < A -> 0 <= j < B -> In k (cell_row A B i j) -> 0 <= k < A * B.
Proof.
  intros Hi Hj Hk.
  pose proof (Z.mod_pos_bound (i + 1) A ltac:(lia)).
  pose proof (Z.mod_pos_bound (j + 1) B ltac:(lia)).
  unfold cell_row in Hk; simpl in Hk.
  repeat (destruct Hk as [Hk|Hk]; [subst k; nia|]); contradiction.
Qed.

(** The index buffer of a filled grid: [6 * A * B] entries, each a valid
    row of the vertex array. *)
Lemma grid_indices_ok {X} (xs ys : list X) :
  let A := Z.of_nat (length xs) in
  let B := Z.of_nat (length ys) in
  let I := concat (grid_map xs ys (fun i _ j _ => cell_row A B i j)) in
  Z.of_nat (length I) = 6 * A * B /\ (forall k, In k I -> 0 <= k < A * B).
Proof.
  intros A B I. split.
  - unfold I. rewrite length_concat_rows, grid_map_length.
    + unfold A, B. lia.
    + intros r Hr. apply in_grid_map in Hr as (i & x & j & y & _ & _ & ->). reflexivity.
  - intros k Hk. unfold I in Hk. apply in_concat in Hk as [r [Hr Hk]].
    apply in_grid_map in Hr as (i & x & j & y & Hi & Hj & ->).
    eapply cell_row_range; eauto.
Qed.

(** ** Closed form of the torus *)

(** Row [i * rings_1 + j] of [self.vertices] of the torus. *)
Definition torus_vertex (a b : R) (nsides rings : Z) (c : color)
    (i : Z) (u : R) (j : Z) (v : R) : vertex :=
  let '(cr, cg, cb) := c in
  let comm_patt := (a + b * cos v)%R in
  mkVertex (comm_patt * cos u) (comm_patt * sin u) (b * sin v)
           (np_sign b * cos u * cos v * np_sign comm_patt)
           (np_sign b * sin u * cos v * np_sign comm_patt)
           (np_sign b * sin v * np_sign comm_patt)
           cr cg cb (IZR i / IZR nsides) (IZR j / IZR rings).

Definition torus_params (n : Z) : list R := linspace_samples (- PI) PI (n + 1).

Lemma torus_cell_write a b nsides rings c i u j v vs ws :
  nsides <> 0 -> rings <> 0 -> 0 <= i -> 0 <= j < rings + 1 ->
  0 <= i * (rings + 1) + j < Z.of_nat (length vs) -> length ws = length vs ->
  torus_cell a b nsides rings (nsides + 1) (rings + 1) c i u j v (vs, ws)
  = Some (list_set vs (Z.to_nat (i * (rings + 1) + j))
            (torus_vertex a b nsides rings c i u j v),
          list_set ws (Z.to_nat (i * (rings + 1) + j))
            (cell_row (nsides + 1) (rings + 1) i j)).
Proof.
  intros Hs Ht Hi Hj Hk Hl. destruct c as [[cr cg] cb].
  unfold torus_cell, py_div.
  destruct (Z.eqb_spec nsides 0); [lia|]. destruct (Z.eqb_spec rings 0); [lia|].
  cbn [bind ret]. rewrite setitem_in by lia. cbn [bind ret].
  rewrite setitem_in by lia. reflexivity.
Qed.

Lemma torus_generate_eq inner outer ri ro nsides rings c :
  order_radii inner outer = (ri, ro) -> ((ro - ri) / 2)%R <> 0%R ->
  1 <= nsides -> 1 <= rings ->
  torus_generate inner outer nsides rings c =
  Some {| t_innerRadius := ri; t_outerRadius := ro; t_nsides := nsides;
          t_rings := rings; t_color := c;
          t_vertices := grid_map (torus_params nsides) (torus_params rings)
             (fun i u j v => torus_vertex ((ro + ri) / 2) ((ro - ri) / 2)
                               nsides rings c i u j v);
          t_indices := concat (grid_map (torus_params nsides) (torus_params rings)
             (fun i _ j _ => cell_row (nsides + 1) (rings + 1) i j)) |}.
Proof.
  intros Ho Hb Hn Hr. unfold torus_generate. rewrite Ho.
  destruct (Req_EM_T ((ro - ri) / 2) 0) as [E|_]; [contradiction|].
  unfold np_zeros. destruct (Z.ltb_spec ((nsides + 1) * (rings + 1)) 0); [nia|].
  cbn [bind ret].
  rewrite (linspace_ok (- PI) PI (nsides + 1)) by lia. cbn [bind ret].
  pose proof (grid_loop R vertex (list Z) zero_vertex zero_row
                (torus_params nsides) (torus_params rings)
                (linspace (- PI) PI (rings + 1))
                (linspace_ok (- PI) PI (rings + 1) ltac:(lia))
                (torus_cell ((ro + ri) / 2) ((ro - ri) / 2) nsides rings
                   (nsides + 1) (rings + 1) c)
                (fun i u j v => torus_vertex ((ro + ri) / 2) ((ro - ri) / 2)
                                  nsides rings c i u j v)
                (fun i _ j _ => cell_row (nsides + 1) (rings + 1) i j)) as G.
  unfold outer_body, torus_params in G.
  rewrite !linspace_samples_length in G.
  replace (Z.to_nat ((nsides + 1) * (rings + 1)))
    with (Z.to_nat (nsides + 1) * Z.to_nat (rings + 1))%nat by lia.
  unfold grid_state. rewrite G. reflexivity.
  intros i x j y vs ws Hi Hj Hvs Hws.
  rewrite Z2Nat.id by lia.
  apply torus_cell_write; try lia. rewrite Hvs.
  rewrite Nat2Z.inj_mul, !Z2Nat.id in * by lia. nia.
Qed.

Lemma order_radii_le inner outer : (inner <= outer)%R -> order_radii inner outer = (inner, outer).
Proof. intros H. unfold order_radii. destruct (Rlt_dec outer inner); [lra | reflexivity]. Qed.

Lemma order_radii_gt inner outer : (outer < inner)%R -> order_radii inner outer = (outer, inner).
Proof. intros H. unfold order_radii. destruct (Rlt_dec outer inner); [reflexivity | lra]. Qed.

Lemma grid_map_nil_r {X V} (xs : list X) (F : Z -> X -> Z -> X -> V) :
  grid_map xs [] F = [].
Proof. unfold grid_map. generalize 0 at 2. induction xs; intros; simpl; auto. Qed.

Lemma linspace_samples_zero a b : linspace_samples a b 0 = [].
Proof. reflexivity. Qed.

Lemma linspace_samples_cons a b num : 1 <= num ->
  exists x l, linspace_samples a b num = x :: l.
Proof.
  intros H. pose proof (linspace_samples_length a b num) as L.
  destruct (linspace_samples a b num) as [|x l]; simpl in L; [lia|]. eauto.
Qed.

(** The torus index buffer, for every call that returns with [b <> 0]:
    length [6 * (nsides + 1) * (rings + 1)], entries in range. *)
Lemma torus_indices_ok inner outer nsides rings c st :
  torus_generate inner outer nsides rings c = Some st ->
  ((t_outerRadius st - t_innerRadius st) / 2)%R <> 0%R ->
  Z.of_nat (length (t_indices st)) = 6 * (t_nsides st + 1) * (t_rings st + 1) /\
  (forall k, In k (t_indices st) -> 0 <= k < Z.of_nat (length (t_vertices st))).
Proof.
  intros H Hb.
  destruct (order_radii inner outer) as [ri ro] eqn:Ho.
  assert (Hb' : ((ro - ri) / 2)%R <> 0%R).
  { intros E. unfold torus_generate in H. rewrite Ho in H.
    destruct (Req_EM_T ((ro - ri) / 2) 0); [|contradiction].
    injection H as <-. simpl in Hb. contradiction. }
  destruct (Z_lt_le_dec 0 nsides) as [Hn|Hn]; [destruct (Z_lt_le_dec 0 rings) as [Hr|Hr]|].
  - (* nsides, rings >= 1: the full grid *)
    rewrite (torus_generate_eq inner outer ri ro nsides rings c Ho Hb') in H by lia.
    injection H as <-. simpl.
    pose proof (grid_indices_ok (torus_params nsides) (torus_params rings)) as G.
    simpl in G. unfold torus_params in *. rewrite !linspace_samples_length in G.
    rewrite !Z2Nat.id in G by lia. rewrite grid_map_length, !linspace_samples_length.
    destruct G as [G1 G2]. split; [exact G1|].
    intros k Hk. apply G2 in Hk. lia.
  - (* rings <= 0 *)
    unfold torus_generate in H. rewrite Ho in H.
    destruct (Req_EM_T ((ro - ri) / 2) 0) as [E|_]; [contradiction|].
    unfold np_zeros in H.
    destruct (Z.ltb_spec ((nsides + 1) * (rings + 1)) 0); [discriminate|].
    cbn [bind ret] in H.
    assert (Er : rings = -1 \/ rings = 0) by nia.
    destruct Er as [Er|Er].
    + (* rings = -1: the inner linspace is empty *)
      subst rings. rewrite (linspace_ok (- PI) PI (nsides + 1)) in H by lia.
      cbn [bind ret] in H.
      pose proof (grid_loop R vertex (list Z) zero_vertex zero_row
                  (linspace_samples (- PI) PI (nsides + 1)) []
                  (linspace (- PI) PI (-1 + 1)) eq_refl
                  (torus_cell ((ro + ri) / 2) ((ro - ri) / 2) nsides (-1)
                     (nsides + 1) (-1 + 1) c)
                  (fun _ _ _ _ => zero_vertex) (fun _ _ _ _ => zero_row)) as G.
      unfold outer_body in G. simpl length in G. rewrite Nat.mul_0_r in G.
      replace (Z.to_nat ((nsides + 1) * (-1 + 1))) with 0%nat in H by lia.
      unfold grid_state in H. rewrite G in H.
      2: { intros. simpl in *. lia. }
      cbn [bind ret] in H. injection H as <-.
      cbn [t_indices t_vertices t_nsides t_rings fst snd]. rewrite !grid_map_nil_r.
      simpl. split; [lia | intros k []].
    + (* rings = 0: ZeroDivisionError in the first step *)
      subst rings. rewrite (linspace_ok (- PI) PI (nsides + 1)) in H by lia.
      cbn [bind ret] in H.
      destruct (linspace_samples_cons (- PI) PI (nsides + 1) ltac:(lia)) as (u & us & Eu).
      rewrite Eu in H. simpl for_enumerate in H.
      destruct c as [[cr cg] cb]. unfold py_div in H.
      destruct (Z.eqb nsides 0); discriminate.
  - (* nsides <= 0 *)
    unfold torus_generate in H. rewrite Ho in H.
    destruct (Req_EM_T ((ro - ri) / 2) 0) as [E|_]; [contradiction|].
    unfold np_zeros in H.
    destruct (Z.ltb_spec ((nsides + 1) * (rings + 1)) 0); [discriminate|].
    cbn [bind ret] in H.
    unfold linspace at 1 in H.
    destruct (Z.ltb_spec (nsides + 1) 0); [discriminate|].
    cbn [bind ret] in H.
    assert (En : nsides = -1 \/ nsides = 0) by lia.
    destruct En as [En|En].
    + (* nsides = -1: the outer linspace is empty *)
      subst nsides. simpl in H. injection H as <-. simpl. split; [lia|].
      intros k [].
    + (* nsides = 0: ZeroDivisionError in the first step, if any *)
      subst nsides.
      assert (Eu : linspace_samples (- PI) PI (0 + 1) = [(- PI + INR 0 * 0)%R])
        by reflexivity.
      rewrite Eu in H. simpl for_enumerate in H.
      unfold linspace at 1 in H.
      destruct (Z.ltb_spec (rings + 1) 0); [discriminate|].
      cbn [bind ret] in H.
      destruct (Z.eq_dec rings (-1)) as [Er|Er].
      * subst rings. simpl in H. injection H as <-. simpl. split; [lia|].
        intros k Hk. simpl in Hk. lia.
      * destruct (linspace_samples_cons (- PI) PI (rings + 1) ltac:(lia)) as (v & vs & Ev).
        rewrite Ev in H. simpl for_enumerate in H.
        unfold torus_cell in H. destruct c as [[cr cg] cb]. unfold py_div in H.
        simpl in H. discriminate.
Qed.

(** ** Geometry of the emitted triangles *)

Definition vec3 : Type := (R * R * R)%type.
Definition position (v : vertex) : vec3 := (vx v, vy v, vz v).
Definition normal (v : vertex) : vec3 := (vnx v, vny v, vnz v).

Definition vsub (p q : vec3) : vec3 :=
  let '(p1, p2, p3) := p in let '(q1, q2, q3) := q in
  ((p1 - q1)%R, (p2 - q2)%R, (p3 - q3)%R).
Definition vadd (p q : vec3) : vec3 :=
  let '(p1, p2, p3) := p in let '(q1, q2, q3) := q in
  ((p1 + q1)%R, (p2 + q2)%R, (p3 + q3)%R).
Definition vscale (k : R) (p : vec3) : vec3 :=
  let '(p1, p2, p3) := p in ((k * p1)%R, (k * p2)%R, (k * p3)%R).
Definition cross (p q : vec3) : vec3 :=
  let '(p1, p2, p3) := p in let '(q1, q2, q3) := q in
  ((p2 * q3 - p3 * q2)%R, (p3 * q1 - p1 * q3)%R, (p1 * q2 - p2 * q1)%R).
Definition dot (p q : vec3) : R :=
  let '(p1, p2, p3) := p in let '(q1, q2, q3) := q in
  (p1 * q1 + p2 * q2 + p3 * q3)%R.

(** The vertex an index of the index buffer refers to. *)
Definition vertex_at (vs : list vertex) (k : Z) : vertex := nth (Z.to_nat k) vs zero_vertex.

(** The index buffer read as GL_TRIANGLES: consecutive triples. *)
Fixpoint triangles (l : list Z) : list (Z * Z * Z) :=
  match l with
  | a :: b :: c :: t => (a, b, c) :: triangles t
  | _ => []
  end.

Definition face_normal (vs : list vertex) (t : Z * Z * Z) : vec3 :=
  let '(a, b, c) := t in
  let pa := position (vertex_at vs a) in
  cross (vsub (position (vertex_at vs b)) pa) (vsub (position (vertex_at vs c)) pa).

Definition average_normal (vs : list vertex) (t : Z * Z * Z) : vec3 :=
  let '(a, b, c) := t in
  vscale (1 / 3) (vadd (vadd (normal (vertex_at vs a)) (normal (vertex_at vs b)))
                       (normal (vertex_at vs c))).

(** The winding property of the spec for one triangle. *)
Definition outward_ccw (vs : list vertex) (t : Z * Z * Z) : Prop :=
  (0 < dot (face_normal vs t) (average_normal vs t))%R.

Definition pairwise_distinct (p q r : vec3) : Prop := p <> q /\ q <> r /\ p <> r.

(** The three vertices of a triangle are at pairwise distinct positions. *)
Definition tri_pairwise_distinct (vs : list vertex) (t : Z * Z * Z) : Prop :=
  let '(a, b, c) := t in
  pairwise_distinct (position (vertex_at vs a)) (position (vertex_at vs b))
                    (position (vertex_at vs c)).

(** First triangle [i_by_j, ip1_by_j, i_by_jp1] of the cell at [(i, j)]. *)
Definition cell_tri1 (A B i j : Z) : Z * Z * Z :=
  (i * B + j, ((i + 1) mod A) * B + j, i * B + ((j + 1) mod B)).

(** Vertex at grid position [(i, j)] of a sphere, i.e. row [i_by_j]. *)
Definition sphere_at (st : Sphere) (i j : Z) : vertex :=
  vertex_at (s_vertices st) (i * (s_stacks st + 1) + j).

(** A sample color, used for concrete calls. *)
Definition sample_color : color := (0%R, 0%R, 1%R).

Lemma triangles_concat (L : list (list Z)) :
  (forall r, In r L -> length r = 6%nat) ->
  triangles (concat L) = flat_map triangles L.
Proof.
  induction L as [|r L IH]; intros H; simpl; auto.
  assert (Hr : length r = 6%nat) by (apply H; left; auto).
  destruct r as [|a [|b [|c [|d [|e [|f [|g r]]]]]]]; simpl in Hr; try lia.
  simpl. rewrite IH by (intros; apply H; right; auto). reflexivity.
Qed.

Lemma firstn_skipn_concat6 (L : list (list Z)) k :
  (forall r, In r L -> length r = 6%nat) -> (k < length L)%nat ->
  firstn 6 (skipn (6 * k) (concat L)) = nth k L [].
Proof.
  revert k; induction L as [|r L IH]; intros k H Hk; simpl in Hk; [lia|].
  assert (Hr : length r = 6%nat) by (apply H; left; auto).
  destruct k as [|k].
  - rewrite Nat.mul_0_r. cbn [skipn concat nth].
    rewrite firstn_app, Hr, Nat.sub_diag, firstn_O, app_nil_r.
    rewrite <- Hr, firstn_all. reflexivity.
  - cbn [concat nth]. replace (6 * S k)%nat with (length r + 6 * k)%nat by lia.
    rewrite skipn_app, skipn_all2 by lia.
    replace (length r + 6 * k - length r)%nat with (6 * k)%nat by lia.
    rewrite app_nil_l.
    apply IH; [intros; apply H; right; auto | lia].
Qed.

(** Vertex [(i, j)] of a generated sphere, by its grid parameters. *)
Lemma sphere_at_eq radius slices stacks c i j :
  let s := clamp3 slices in
  let t := clamp3 stacks in
  0 <= i <= s -> 0 <= j <= t ->
  vertex_at (grid_map (sphere_phis s) (sphere_thetas t)
               (fun i phi j theta => sphere_vertex radius s t c i phi j theta))
            (i * (t + 1) + j)
  = sphere_vertex radius s t c i (nth (Z.to_nat i) (sphere_phis s) 0%R)
                  j (nth (Z.to_nat j) (sphere_thetas t) 0%R).
Proof.
  intros s t Hi Hj. pose proof (clamp3_ge stacks). pose proof (clamp3_ge slices).
  fold t s in H, H0.
  unfold vertex_at.
  replace (Z.to_nat (i * (t + 1) + j))
    with (Z.to_nat i * length (sphere_thetas t) + Z.to_nat j)%nat
    by (unfold sphere_thetas; rewrite linspace_samples_length; lia).
  rewrite (nth_grid_map _ _ _ _ _ _ 0%R).
  - rewrite !Z2Nat.id by lia. reflexivity.
  - unfold sphere_phis; rewrite linspace_samples_length; lia.
  - unfold sphere_thetas; rewrite linspace_samples_length; lia.
Qed.

Lemma sphere_phi_first s : 3 <= s -> nth 0 (sphere_phis s) 0%R = (- PI / 2)%R.
Proof. intros. apply linspace_first. lia. Qed.

Lemma sphere_phi_last s : 3 <= s -> nth (Z.to_nat s) (sphere_phis s) 0%R = (PI / 2)%R.
Proof.
  intros. unfold sphere_phis.
  replace (Z.to_nat s) with (Z.to_nat (s + 1) - 1)%nat by lia.
  apply linspace_last. lia.
Qed.

Lemma sphere_theta_first t : 3 <= t -> nth 0 (sphere_thetas t) 0%R = (- PI)%R.
Proof. intros. apply linspace_first. lia. Qed.

Lemma sphere_theta_last t : 3 <= t -> nth (Z.to_nat t) (sphere_thetas t) 0%R = PI.
Proof.
  intros. unfold sphere_thetas.
  replace (Z.to_nat t) with (Z.to_nat (t + 1) - 1)%nat by lia.
  apply linspace_last. lia.
Qed.

Lemma cos_south : cos (- PI / 2) = 0%R.
Proof. replace (- PI / 2)%R with (- (PI / 2))%R by field. rewrite cos_neg. apply cos_PI2. Qed.

Lemma sin_south : sin (- PI / 2) = (-1)%R.
Proof. replace (- PI / 2)%R with (- (PI / 2))%R by field. rewrite sin_neg, sin_PI2. reflexivity. Qed.

Lemma sphere_mesh_at radius slices stacks c i j :
  let m := sphere_mesh radius slices stacks c in
  0 <= i <= s_slices m -> 0 <= j <= s_stacks m ->
  sphere_at m i j
  = sphere_vertex radius (s_slices m) (s_stacks m) c
      i (nth (Z.to_nat i) (sphere_phis (s_slices m)) 0%R)
      j (nth (Z.to_nat j) (sphere_thetas (s_stacks m)) 0%R).
Proof. intros m Hi Hj. apply sphere_at_eq; auto. Qed.

Lemma sphere_south radius slices stacks c j :
  let m := sphere_mesh radius slices stacks c in
  0 <= j <= s_stacks m ->
  position (sphere_at m 0 j) = (0%R, 0%R, (- radius)%R) /\ vtv (sphere_at m 0 j) = 0%R.
Proof.
  intros m Hj. subst m. pose proof (clamp3_ge slices).
  rewrite sphere_mesh_at by (simpl in *; lia). simpl.
  rewrite sphere_phi_first by lia. destruct c as [[cr cg] cb].
  unfold position, sphere_vertex; simpl. rewrite cos_south, sin_south.
  split; [f_equal; [f_equal|]; ring | unfold Rdiv; ring].
Qed.

Lemma sphere_north radius slices stacks c j :
  let m := sphere_mesh radius slices stacks c in
  0 <= j <= s_stacks m ->
  position (sphere_at m (s_slices m) j) = (0%R, 0%R, radius) /\
  vtv (sphere_at m (s_slices m) j) = 1%R.
Proof.
  intros m Hj. subst m. pose proof (clamp3_ge slices).
  rewrite sphere_mesh_at by (simpl in *; lia). simpl.
  rewrite sphere_phi_last by lia. destruct c as [[cr cg] cb].
  unfold position, sphere_vertex; simpl. rewrite cos_PI2, sin_PI2.
  split; [f_equal; [f_equal|]; ring|].
  apply Rinv_r. apply not_0_IZR. lia.
Qed.

Lemma sphere_seam radius slices stacks c i :
  let m := sphere_mesh radius slices stacks c in
  0 <= i <= s_slices m ->
  position (sphere_at m i 0) = position (sphere_at m i (s_stacks m)) /\
  normal (sphere_at m i 0) = normal (sphere_at m i (s_stacks m)) /\
  vtu (sphere_at m i 0) = 0%R /\ vtu (sphere_at m i (s_stacks m)) = 1%R.
Proof.
  intros m Hi. subst m. pose proof (clamp3_ge stacks).
  rewrite !sphere_mesh_at by (simpl in *; lia). simpl.
  rewrite sphere_theta_first, sphere_theta_last by lia.
  destruct c as [[cr cg] cb].
  unfold position, normal, sphere_vertex; simpl.
  rewrite cos_neg, sin_neg, sin_PI, Ropp_0.
  split; [reflexivity|]. split; [reflexivity|]. split; [unfold Rdiv; ring|].
  apply Rinv_r. apply not_0_IZR. lia.
Qed.

Lemma grid_row_in {X V} (xs ys : list X) (F : Z -> X -> Z -> X -> V) i j dx :
  0 <= i < Z.of_nat (length xs) -> 0 <= j < Z.of_nat (length ys) ->
  In (F i (nth (Z.to_nat i) xs dx) j (nth (Z.to_nat j) ys dx)) (grid_map xs ys F).
Proof.
  intros Hi Hj.
  destruct (grid_map xs ys F) as [|d l] eqn:E.
  { pose proof (grid_map_length xs ys F) as L. rewrite E in L. simpl in L. nia. }
  rewrite <- E.
  rewrite <- (Z2Nat.id i) at 1 by lia. rewrite <- (Z2Nat.id j) at 1 by lia.
  rewrite <- (nth_grid_map xs ys F (Z.to_nat i) (Z.to_nat j) d dx) by lia.
  apply nth_In. rewrite grid_map_length. nia.
Qed.

Lemma cell_rows_length {X} (xs ys : list X) A B r :
  In r (grid_map xs ys (fun i _ j _ => cell_row A B i j)) -> length r = 6%nat.
Proof. intros H. apply in_grid_map in H as (i & x & j & y & _ & _ & ->). reflexivity. Qed.

(** Both triangles of the cell at [(i, j)] are in the index buffer of a
    filled grid. *)
Lemma cell_tri1_in {X} (xs ys : list X) A B i j (dx : X) :
  0 <= i < Z.of_nat (length xs) -> 0 <= j < Z.of_nat (length ys) ->
  In (cell_tri1 A B i j) (triangles (concat (grid_map xs ys (fun i _ j _ => cell_row A B i j)))).
Proof.
  intros Hi Hj. rewrite triangles_concat by apply cell_rows_length.
  apply in_flat_map. exists (cell_row A B i j). split.
  - exact (grid_row_in xs ys (fun i _ j _ => cell_row A B i j) i j dx Hi Hj).
  - left. reflexivity.
Qed.

Lemma sphere_tri1_in radius slices stacks c i j :
  let m := sphere_mesh radius slices stacks c in
  0 <= i <= s_slices m -> 0 <= j <= s_stacks m ->
  In (cell_tri1 (s_slices m + 1) (s_stacks m + 1) i j) (triangles (s_indices m)).
Proof.
  intros m Hi Hj. subst m. simpl in *.
  apply (cell_tri1_in _ _ _ _ _ _ 0%R);
    unfold sphere_phis, sphere_thetas; rewrite linspace_samples_length; lia.
Qed.

Lemma face_normal_ab vs a b c :
  position (vertex_at vs a) = position (vertex_at vs b) ->
  face_normal vs (a, b, c) = (0%R, 0%R, 0%R).
Proof.
  unfold face_normal. intros ->.
  destruct (position (vertex_at vs b)) as [[p1 p2] p3].
  destruct (position (vertex_at vs c)) as [[q1 q2] q3].
  simpl. f_equal; [f_equal|]; ring.
Qed.

Lemma face_normal_ac vs a b c :
  position (vertex_at vs a) = position (vertex_at vs c) ->
  face_normal vs (a, b, c) = (0%R, 0%R, 0%R).
Proof.
  unfold face_normal. intros ->.
  destruct (position (vertex_at vs b)) as [[p1 p2] p3].
  destruct (position (vertex_at vs c)) as [[q1 q2] q3].
  simpl. f_equal; [f_equal|]; ring.
Qed.

Lemma dot_zero_l p : dot (0%R, 0%R, 0%R) p = 0%R.
Proof. destruct p as [[p1 p2] p3]. simpl. ring. Qed.

(** ** Closed form of the torus, by record *)

Definition torus_mesh (ri ro : R) (nsides rings : Z) (c : color) : Torus :=
  {| t_innerRadius := ri; t_outerRadius := ro; t_nsides := nsides;
     t_rings := rings; t_color := c;
     t_vertices := grid_map (torus_params nsides) (torus_params rings)
        (fun i u j v => torus_vertex ((ro + ri) / 2) ((ro - ri) / 2) nsides rings c i u j v);
     t_indices := concat (grid_map (torus_params nsides) (torus_params rings)
        (fun i _ j _ => cell_row (nsides + 1) (rings + 1) i j)) |}.

Lemma torus_generate_mesh inner outer ri ro nsides rings c :
  order_radii inner outer = (ri, ro) -> ((ro - ri) / 2)%R <> 0%R ->
  1 <= nsides -> 1 <= rings ->
  torus_generate inner outer nsides rings c = Some (torus_mesh ri ro nsides rings c).
Proof. apply torus_generate_eq. Qed.

Lemma torus_mesh_at ri ro nsides rings c i j :
  1 <= nsides -> 1 <= rings -> 0 <= i <= nsides -> 0 <= j <= rings ->
  vertex_at (t_vertices (torus_mesh ri ro nsides rings c)) (i * (rings + 1) + j)
  = torus_vertex ((ro + ri) / 2) ((ro - ri) / 2) nsides rings c
      i (nth (Z.to_nat i) (torus_params nsides) 0%R)
      j (nth (Z.to_nat j) (torus_params rings) 0%R).
Proof.
  intros Hn Hr Hi Hj. unfold vertex_at, torus_mesh; simpl.
  replace (Z.to_nat (i * (rings + 1) + j))
    with (Z.to_nat i * length (torus_params rings) + Z.to_nat j)%nat
    by (unfold torus_params; rewrite linspace_samples_length; lia).
  rewrite (nth_grid_map _ _ _ _ _ _ 0%R).
  - rewrite !Z2Nat.id by lia. reflexivity.
  - unfold torus_params; rewrite linspace_samples_length; lia.
  - unfold torus_params; rewrite linspace_samples_length; lia.
Qed.

(** The rows [i = 0] and [i = nsides] of the torus coincide in position. *)
Lemma torus_seam_u ri ro nsides rings c j :
  1 <= nsides -> 1 <= rings -> 0 <= j <= rings ->
  position (vertex_at (t_vertices (torus_mesh ri ro nsides rings c)) (nsides * (rings + 1) + j))
  = position (vertex_at (t_vertices (torus_mesh ri ro nsides rings c)) (0 * (rings + 1) + j)).
Proof.
  intros Hn Hr Hj. rewrite !torus_mesh_at by lia.
  unfold torus_params.
  replace (Z.to_nat nsides) with (Z.to_nat (nsides + 1) - 1)%nat by lia.
  rewrite linspace_last by lia. simpl Z.to_nat. rewrite linspace_first by lia.
  destruct c as [[cr cg] cb]. unfold torus_vertex, position; simpl.
  rewrite cos_neg, sin_neg, sin_PI, Ropp_0. reflexivity.
Qed.

Lemma torus_tri1_in ri ro nsides rings c i j :
  1 <= nsides -> 1 <= rings -> 0 <= i <= nsides -> 0 <= j <= rings ->
  In (cell_tri1 (nsides + 1) (rings + 1) i j)
     (triangles (t_indices (torus_mesh ri ro nsides rings c))).
Proof.
  intros Hn Hr Hi Hj. unfold torus_mesh; simpl.
  apply (cell_tri1_in _ _ _ _ _ _ 0%R);
    unfold torus_params; rewrite linspace_samples_length; lia.
Qed.

(** With [b <> 0], a division count of 0 (the other one non-negative)
    makes the first loop step divide by zero. *)
Lemma torus_generate_zero_count inner outer ri ro nsides rings c :
  order_radii inner outer = (ri, ro) -> ((ro - ri) / 2)%R <> 0%R ->
  (nsides = 0 /\ 0 <= rings) \/ (rings = 0 /\ 0 <= nsides) ->
  torus_generate inner outer nsides rings c = None.
Proof.
  intros Ho Hb Hz. unfold torus_generate. rewrite Ho.
  destruct (Req_EM_T ((ro - ri) / 2) 0) as [E|_]; [contradiction|].
  unfold np_zeros.
  destruct (Z.ltb_spec ((nsides + 1) * (rings + 1)) 0); [nia|].
  cbn [bind ret].
  rewrite (linspace_ok (- PI) PI (nsides + 1)) by lia. cbn [bind ret].
  destruct (linspace_samples_cons (- PI) PI (nsides + 1) ltac:(lia)) as (u & us & Eu).
  rewrite Eu. cbn [for_enumerate bind].
  rewrite (linspace_ok (- PI) PI (rings + 1)) by lia. cbn [bind ret].
  destruct (linspace_samples_cons (- PI) PI (rings + 1) ltac:(lia)) as (v & vs & Ev).
  rewrite Ev. cbn [for_enumerate bind].
  unfold torus_cell. destruct c as [[cr cg] cb]. unfold py_div.
  destruct Hz as [[-> _]|[-> _]]; simpl; [reflexivity|].
  destruct (Z.eqb nsides 0); reflexivity.
Qed.

(** ** Degenerate triangles of the sphere *)

Lemma sphere_pole_row_tri radius slices stacks c j :
  let m := sphere_mesh radius slices stacks c in
  let B := s_stacks m + 1 in
  0 <= j <= s_stacks m ->
  position (vertex_at (s_vertices m) (0 * B + j))
  = position (vertex_at (s_vertices m) (0 * B + ((j + 1) mod B))).
Proof.
  intros m B Hj.
  pose proof (Z.mod_pos_bound (j + 1) B ltac:(subst B; lia)).
  change (vertex_at (s_vertices m) (0 * B + j)) with (sphere_at m 0 j).
  change (vertex_at (s_vertices m) (0 * B + (j + 1) mod B)) with (sphere_at m 0 ((j + 1) mod B)).
  subst B m.
  rewrite (proj1 (sphere_south radius slices stacks c j Hj)).
  rewrite (proj1 (sphere_south radius slices stacks c
    ((j + 1) mod (s_stacks (sphere_mesh radius slices stacks c) + 1)) ltac:(lia))).
  reflexivity.
Qed.

Lemma sphere_last_row_tri radius slices stacks c j :
  let m := sphere_mesh radius slices stacks c in
  let B := s_stacks m + 1 in
  0 <= j <= s_stacks m ->
  position (vertex_at (s_vertices m) (s_slices m * B + j))
  = position (vertex_at (s_vertices m) (s_slices m * B + ((j + 1) mod B))).
Proof.
  intros m B Hj.
  pose proof (Z.mod_pos_bound (j + 1) B ltac:(subst B; lia)).
  change (vertex_at (s_vertices m) (s_slices m * B + j)) with (sphere_at m (s_slices m) j).
  change (vertex_at (s_vertices m) (s_slices m * B + (j + 1) mod B))
    with (sphere_at m (s_slices m) ((j + 1) mod B)).
  subst B m.
  rewrite (proj1 (sphere_north radius slices stacks c j Hj)).
  rewrite (proj1 (sphere_north radius slices stacks c
    ((j + 1) mod (s_stacks (sphere_mesh radius slices stacks c) + 1)) ltac:(lia))).
  reflexivity.
Qed.

Lemma sphere_last_column_tri radius slices stacks c i :
  let m := sphere_mesh radius slices stacks c in
  let B := s_stacks m + 1 in
  0 <= i <= s_slices m ->
  position (vertex_at (s_vertices m) (i * B + s_stacks m))
  = position (vertex_at (s_vertices m) (i * B + ((s_stacks m + 1) mod B))).
Proof.
  intros m B Hi. subst B. rewrite Z.mod_same by (subst m; simpl; pose proof (clamp3_ge stacks); lia).
  change (vertex_at (s_vertices m) (i * (s_stacks m + 1) + s_stacks m))
    with (sphere_at m i (s_stacks m)).
  change (vertex_at (s_vertices m) (i * (s_stacks m + 1) + 0)) with (sphere_at m i 0).
  symmetry. apply (sphere_seam radius slices stacks c i Hi).
Qed.

(** The first triangle of each cell of the south-pole row has a zero face
    normal. *)
Lemma sphere_pole_tri_zero radius slices stacks c j :
  let m := sphere_mesh radius slices stacks c in
  let t := cell_tri1 (s_slices m + 1) (s_stacks m + 1) 0 j in
  0 <= j <= s_stacks m ->
  In t (triangles (s_indices m)) /\ face_normal (s_vertices m) t = (0%R, 0%R, 0%R).
Proof.
  intros m t Hj. split.
  - apply sphere_tri1_in; [subst m; simpl; pose proof (clamp3_ge slices); lia | exact Hj].
  - apply face_normal_ac. apply sphere_pole_row_tri. exact Hj.
Qed.

(** ** Outcomes and geometry of the torus *)

Definition torus_empty (ri ro : R) (nsides rings : Z) (c : color) : Torus :=
  {| t_innerRadius := ri; t_outerRadius := ro; t_nsides := nsides;
     t_rings := rings; t_color := c; t_vertices := []; t_indices := [] |}.

Lemma torus_generate_no_sides inner outer ri ro rings c :
  order_radii inner outer = (ri, ro) -> ((ro - ri) / 2)%R <> 0%R ->
  torus_generate inner outer (-1) rings c = Some (torus_empty ri ro (-1) rings c).
Proof.
  intros Ho Hb. unfold torus_generate. rewrite Ho.
  destruct (Req_EM_T ((ro - ri) / 2) 0) as [E|_]; [contradiction|].
  unfold np_zeros. replace ((-1 + 1) * (rings + 1)) with 0 by ring.
  reflexivity.
Qed.

Lemma torus_generate_no_rings inner outer ri ro nsides c :
  order_radii inner outer = (ri, ro) -> ((ro - ri) / 2)%R <> 0%R -> 0 <= nsides ->
  torus_generate inner outer nsides (-1) c = Some (torus_empty ri ro nsides (-1) c).
Proof.
  intros Ho Hb Hn. unfold torus_generate. rewrite Ho.
  destruct (Req_EM_T ((ro - ri) / 2) 0) as [E|_]; [contradiction|].
  unfold np_zeros. replace ((nsides + 1) * (-1 + 1)) with 0 by ring.
  cbn [Z.ltb Z.compare bind ret].
  rewrite (linspace_ok (- PI) PI (nsides + 1)) by lia. cbn [bind ret].
  pose proof (grid_loop R vertex (list Z) zero_vertex zero_row
              (linspace_samples (- PI) PI (nsides + 1)) []
              (linspace (- PI) PI (-1 + 1)) eq_refl
              (torus_cell ((ro + ri) / 2) ((ro - ri) / 2) nsides (-1)
                 (nsides + 1) (-1 + 1) c)
              (fun _ _ _ _ => zero_vertex) (fun _ _ _ _ => zero_row)) as G.
  unfold outer_body in G. simpl length in G. rewrite Nat.mul_0_r in G.
  unfold grid_state. change (Z.to_nat 0) with 0%nat. rewrite G.
  - cbn [bind ret]. rewrite !grid_map_nil_r. reflexivity.
  - intros. simpl in *. lia.
Qed.

Lemma torus_generate_negative inner outer ri ro nsides rings c :
  order_radii inner outer = (ri, ro) -> ((ro - ri) / 2)%R <> 0%R ->
  nsides <= -2 \/ (0 <= nsides /\ rings <= -2) ->
  torus_generate inner outer nsides rings c = None.
Proof.
  intros Ho Hb Hn. unfold torus_generate. rewrite Ho.
  destruct (Req_EM_T ((ro - ri) / 2) 0) as [E|_]; [contradiction|].
  unfold np_zeros.
  destruct (Z.ltb_spec ((nsides + 1) * (rings + 1)) 0); [reflexivity|].
  cbn [bind ret]. destruct Hn as [Hn|Hn]; [|nia].
  unfold linspace at 1. destruct (Z.ltb_spec (nsides + 1) 0); [reflexivity|lia].
Qed.

(** Every outcome of [DisplayableTorus.generate]. *)
Lemma torus_generate_cases inner outer ri ro nsides rings c :
  order_radii inner outer = (ri, ro) ->
  torus_generate inner outer nsides rings c =
  if Req_EM_T ((ro - ri) / 2) 0 then Some (torus_empty ri ro nsides rings c)
  else if (1 <=? nsides) && (1 <=? rings) then Some (torus_mesh ri ro nsides rings c)
  else if (nsides =? -1) || ((rings =? -1) && (0 <=? nsides))
  then Some (torus_empty ri ro nsides rings c)
  else None.
Proof.
  intros Ho.
  destruct (Req_EM_T ((ro - ri) / 2) 0) as [E|E].
  { unfold torus_generate. rewrite Ho.
    destruct (Req_EM_T ((ro - ri) / 2) 0); [reflexivity|contradiction]. }
  destruct (Z.leb_spec 1 nsides); destruct (Z.leb_spec 1 rings); cbn [andb];
    [apply torus_generate_mesh; auto; lia| | |].
  all: destruct (Z.eqb_spec nsides (-1)) as [En|En];
    [subst nsides; apply torus_generate_no_sides; auto|cbn [orb]].
  all: destruct (Z.eqb_spec rings (-1)) as [Er|Er];
    destruct (Z.leb_spec 0 nsides); cbn [andb];
    try (subst rings; apply torus_generate_no_rings; auto; fail).
  all: try (exfalso; lia).
  all: destruct (Z_le_gt_dec rings (-2));
    first [ apply (torus_generate_negative _ _ ri ro); auto; lia
          | apply (torus_generate_zero_count _ _ ri ro); auto; lia ].
Qed.

Lemma order_radii_sorted inner outer ri ro :
  order_radii inner outer = (ri, ro) -> (ri <= ro)%R.
Proof.
  unfold order_radii. destruct (Rlt_dec outer inner); intros H; injection H as <- <-; lra.
Qed.

(** Every vertex of a returned torus comes from the full grid. *)
Lemma torus_generate_vertex inner outer nsides rings c st v :
  torus_generate inner outer nsides rings c = Some st -> In v (t_vertices st) ->
  1 <= t_nsides st /\ 1 <= t_rings st /\
  (0 < (t_outerRadius st - t_innerRadius st) / 2)%R /\
  exists i u j w, 0 <= i <= t_nsides st /\ 0 <= j <= t_rings st /\
    v = torus_vertex ((t_outerRadius st + t_innerRadius st) / 2)
                     ((t_outerRadius st - t_innerRadius st) / 2)
                     (t_nsides st) (t_rings st) (t_color st) i u j w.
Proof.
  intros H Hv. destruct (order_radii inner outer) as [ri ro] eqn:Ho.
  pose proof (order_radii_sorted _ _ _ _ Ho) as Hle.
  rewrite (torus_generate_cases _ _ ri ro) in H by exact Ho.
  destruct (Req_EM_T ((ro - ri) / 2) 0) as [E|E].
  { injection H as <-. destruct Hv. }
  destruct ((1 <=? nsides) && (1 <=? rings)) eqn:En.
  - apply andb_true_iff in En as [En Er]. apply Z.leb_le in En, Er.
    injection H as <-. unfold torus_mesh in *.
    cbn [t_nsides t_rings t_outerRadius t_innerRadius t_color t_vertices] in *.
    split; [lia|]. split; [lia|].
    split; [destruct (Rtotal_order ((ro - ri) / 2) 0) as [?|[?|?]]; [lra|contradiction|lra]|].
    apply in_grid_map in Hv as (i & u & j & w & Hi & Hj & ->).
    unfold torus_params in Hi, Hj. rewrite linspace_samples_length in Hi, Hj.
    exists i, u, j, w. split; [lia|]. split; [lia|]. reflexivity.
  - destruct ((nsides =? -1) || ((rings =? -1) && (0 <=? nsides))); [|discriminate].
    injection H as <-. destruct Hv.
Qed.

Lemma np_sign_pos x : (0 < x)%R -> np_sign x = 1%R.
Proof. intros H. unfold np_sign. destruct (Rlt_dec 0 x); [reflexivity | lra]. Qed.

Lemma np_sign_zero : np_sign 0 = 0%R.
Proof. unfold np_sign. destruct (Rlt_dec 0 0); [lra|]. destruct (Rlt_dec 0 0); [lra | reflexivity]. Qed.

Lemma ratio_unit (p q : R) : (1 <= q)%R -> (0 <= p <= q)%R -> (0 <= p / q <= 1)%R.
Proof.
  intros Hq [Hp0 Hp1]. split.
  - apply Rmult_le_pos; [lra | left; apply Rinv_0_lt_compat; lra].
  - apply Rmult_le_reg_r with q; [lra|].
    unfold Rdiv. rewrite Rmult_assoc, Rinv_l by lra. lra.
Qed.

(** Vertex at grid position [(i, j)] of a torus, i.e. row [i_by_j]. *)
Definition torus_at (st : Torus) (i j : Z) : vertex :=
  vertex_at (t_vertices st) (i * (t_rings st + 1) + j).

Lemma torus_param_first n : 1 <= n -> nth 0 (torus_params n) 0%R = (- PI)%R.
Proof. intros. apply linspace_first. lia. Qed.

Lemma torus_param_last n : 1 <= n -> nth (Z.to_nat n) (torus_params n) 0%R = PI.
Proof.
  intros. unfold torus_params.
  replace (Z.to_nat n) with (Z.to_nat (n + 1) - 1)%nat by lia.
  apply linspace_last. lia.
Qed.

Definition torus_sample : Torus := torus_mesh 0.25 0.5 4 4 sample_color.

Lemma torus_sample_generated :
  torus_generate 0.25 0.5 4 4 sample_color = Some torus_sample.
Proof.
  apply torus_generate_mesh; [apply order_radii_le; lra | lra | lia | lia].
Qed.

(** ** Sketch.py: camera and keyboard handlers *)

Module Sketch.
Import Ascii String.

(** The attributes of a [Sketch] that the handlers below read and write.
    [self.scene] and the scene objects are not modelled: replacing the scene
    is the event [ev_switch_scene] below. *)
Record sketch := mkSketch {
  lookAtPt : vec3; upVector : vec3;
  cameraDis : R; cameraPhi : R; cameraTheta : R;
  last_mouse_leftPosition : Z * Z;
  pauseScene : bool; ambientOn : bool; diffuseOn : bool; specularOn : bool;
  sceneIndex : Z }.

(** Calls the handlers make on objects outside this module. *)
Inductive event :=
| ev_update                                  (** [self.update()] *)
| ev_switch_scene (index : Z)
    (** [self.switchScene(self.sceneList[index](self.shaderProg))]: a newly
        built scene of class [sceneList[index]] replaces [self.scene] *)
| ev_light_flags (specular diffuse ambient : bool)
    (** [setBool('specularOn', ...)], [('diffuseOn', ...)], [('ambientOn', ...)] *)
| ev_light (id : Z).                         (** [light_helper] and [setLight(id, light)] *)

(** [sceneList = [SceneOne, SceneTwo, SceneThree, SceneFour]] *)
Definition sceneList_len : Z := 4.

(** wxPython key codes. *)
Definition WXK_RETURN : Z := 13.
Definition WXK_LEFT : Z := 314.
Definition WXK_UP : Z := 315.
Definition WXK_RIGHT : Z := 316.
Definition WXK_DOWN : Z := 317.

Definition set_view (s : sketch) (la up : vec3) (d phi theta : R) : sketch :=
  mkSketch la up d phi theta (last_mouse_leftPosition s) (pauseScene s)
    (ambientOn s) (diffuseOn s) (specularOn s) (sceneIndex s).

Definition set_angles_last (s : sketch) (phi theta : R) (p : Z * Z) : sketch :=
  mkSketch (lookAtPt s) (upVector s) (cameraDis s) phi theta p (pauseScene s)
    (ambientOn s) (diffuseOn s) (specularOn s) (sceneIndex s).

Definition set_flags (s : sketch) (pause ambient diffuse specular : bool) : sketch :=
  mkSketch (lookAtPt s) (upVector s) (cameraDis s) (cameraPhi s) (cameraTheta s)
    (last_mouse_leftPosition s) pause ambient diffuse specular (sceneIndex s).

Definition set_sceneIndex (s : sketch) (k : Z) : sketch :=
  mkSketch (lookAtPt s) (upVector s) (cameraDis s) (cameraPhi s) (cameraTheta s)
    (last_mouse_leftPosition s) (pauseScene s) (ambientOn s) (diffuseOn s)
    (specularOn s) k.

(** Python's [max(a, b)] and [min(a, b)]: the first argument unless the
    second is strictly larger (smaller). *)
Definition py_max (a b : R) : R := if Rlt_dec a b then b else a.
Definition py_min (a b : R) : R := if Rlt_dec b a then b else a.

(** Python's float [x % y]: [x - y * floor(x / y)]; ZeroDivisionError when
    [y == 0]. *)
Definition py_fmod (x y : R) : M R :=
  if Req_EM_T y 0 then raise else ret (x - y * IZR (Int_part (x / y)))%R.

(** [chr(k) in s]: ValueError when [k] is not a code point. *)
Definition py_chr_in (k : Z) (s : string) : M bool :=
  if (0 <=? k) && (k <? 1114112) then
    ret (existsb (fun a => Z.eqb k (Z.of_nat (nat_of_ascii a))) (list_ascii_of_string s))
  else raise.

Definition resetView (s : sketch) : sketch :=
  set_view s (0%R, 0%R, 0%R) (0%R, 1%R, 0%R) 6 (PI / 6) (PI / 2).

Definition getCameraPos (s : sketch) : vec3 :=
  let ct := cos (cameraTheta s) in
  let st := sin (cameraTheta s) in
  let cp := cos (cameraPhi s) in
  let sp := sin (cameraPhi s) in
  let '(l0, l1, l2) := lookAtPt s in
  ((l0 + cameraDis s * ct * cp)%R, (l1 + cameraDis s * sp)%R,
   (l2 + cameraDis s * st * cp)%R).

Definition changeScene (index : Z) (s : sketch) : sketch * list event :=
  let k := index mod sceneList_len in
  (set_sceneIndex s k, [ev_switch_scene k]).

Definition Interrupt_Scroll (wheelRotation : Z) (s : sketch) : M (sketch * list event) :=
  if wheelRotation =? 0 then ret (s, []) else
  wheelChange <- py_div wheelRotation (Z.abs wheelRotation) ;;
  ret (set_view s (lookAtPt s) (upVector s)
         (py_max (cameraDis s - wheelChange * 0.1) 0.01) (cameraPhi s) (cameraTheta s),
       [ev_update]).

Definition Interrupt_MouseLeftDragging (x y : Z) (s : sketch) : M sketch :=
  let '(lx, ly) := last_mouse_leftPosition s in
  let dx := x - lx in
  let dy := y - ly in
  if 5 <? dx * dx + dy * dy then
    ret (set_angles_last s (cameraPhi s) (cameraTheta s) (x, y))
  else
  dy100 <- py_div dy 100 ;;
  let cameraPhi := py_min (PI / 2) (py_max (- PI / 2) (cameraPhi s - dy100)) in
  dx100 <- py_div dx 100 ;;
  let cameraTheta := (cameraTheta s + dx100)%R in
  phi' <- py_fmod (cameraPhi + PI) (2 * PI) ;;
  let cameraPhi := (phi' - PI)%R in
  cameraTheta <- py_fmod cameraTheta (2 * PI) ;;
  ret (set_angles_last s cameraPhi cameraTheta (x, y)).

(** [updateLight()] with [update=True]. *)
Definition updateLight (s : sketch) : list event :=
  [ev_light_flags (specularOn s) (diffuseOn s) (ambientOn s); ev_update].

(** [Interrupt_Keyboard], with [nlights = len(self.scene.lights)]. *)
Definition Interrupt_Keyboard (nlights keycode : Z) (s : sketch)
    : M (sketch * list event) :=
  if keycode =? WXK_RETURN then ret (s, [ev_update])
  else if keycode =? WXK_LEFT then ret (changeScene (sceneIndex s - 1) s)
  else if keycode =? WXK_RIGHT then ret (changeScene (sceneIndex s + 1) s)
  else if keycode =? WXK_UP then
    r <- Interrupt_Scroll 1 s ;; ret (fst r, snd r ++ [ev_update])
  else if keycode =? WXK_DOWN then
    r <- Interrupt_Scroll (-1) s ;; ret (fst r, snd r ++ [ev_update])
  else
  isR <- py_chr_in keycode "rR" ;;
  if isR then ret (resetView s, []) else
  isP <- py_chr_in keycode "pP" ;;
  if isP then
    ret (set_flags s (negb (pauseScene s)) (ambientOn s) (diffuseOn s) (specularOn s), [])
  else
  isS <- py_chr_in keycode "sS" ;;
  if isS then
    let s' := set_flags s (pauseScene s) (ambientOn s) (diffuseOn s) (negb (specularOn s)) in
    ret (s', updateLight s')
  else
  isD <- py_chr_in keycode "dD" ;;
  if isD then
    let s' := set_flags s (pauseScene s) (ambientOn s) (negb (diffuseOn s)) (specularOn s) in
    ret (s', updateLight s')
  else
  isA <- py_chr_in keycode "aA" ;;
  if isA then
    let s' := set_flags s (pauseScene s) (negb (ambientOn s)) (diffuseOn s) (specularOn s) in
    ret (s', updateLight s')
  else if (48 <=? keycode) && (keycode <=? 57) then
    let id_to_change := if keycode =? 48 then 9 else keycode - 49 in
    if id_to_change <? nlights then ret (s, [ev_light id_to_change; ev_update])
    else ret (s, [])
  else ret (s, []).

(** The state after [__init__] (which calls [resetView]) and [InitGL]
    (which calls [changeScene(0)]), with the class defaults for the rest. *)
Definition sketch_init : sketch :=
  mkSketch (0%R, 0%R, 0%R) (0%R, 1%R, 0%R) 6 (PI / 6) (PI / 2) (0, 0)
    false true true true 0.

End Sketch.

Import Sketch.

Lemma Int_part_zero r : (0 <= r < 1)%R -> Int_part r = 0.
Proof.
  intros [H0 H1]. destruct (base_Int_part r) as [B0 B1].
  assert (Int_part r < 1) by (apply lt_IZR; lra).
  assert (-1 < Int_part r) by (apply lt_IZR; lra).
  lia.
Qed.

Lemma py_fmod_2pi x :
  exists r, py_fmod x (2 * PI)%R = Some r /\ (0 <= r < 2 * PI)%R /\
    exists k, r = (x + 2 * PI * IZR k)%R.
Proof.
  pose proof PI_RGT_0 as Hpi. unfold py_fmod.
  destruct (Req_EM_T (2 * PI) 0) as [E|_]; [lra|].
  eexists. split; [reflexivity|].
  destruct (base_Int_part (x / (2 * PI))) as [B0 B1].
  set (f := IZR (Int_part (x / (2 * PI)))) in *.
  assert (E : (x = 2 * PI * (x / (2 * PI)))%R) by (field; lra).
  split.
  - split; [rewrite E at 1 | rewrite E at 1]; nra.
  - exists (- Int_part (x / (2 * PI))). rewrite opp_IZR. fold f. ring.
Qed.

Lemma py_fmod_2pi_small x : (0 <= x < 2 * PI)%R -> py_fmod x (2 * PI)%R = Some x.
Proof.
  intros Hx. pose proof PI_RGT_0 as Hpi. unfold py_fmod.
  destruct (Req_EM_T (2 * PI) 0) as [E|_]; [lra|].
  rewrite Int_part_zero.
  - unfold ret. f_equal. ring.
  - split.
    + apply Rmult_le_pos; [lra | left; apply Rinv_0_lt_compat; lra].
    + apply Rmult_lt_reg_r with (2 * PI)%R; [lra|].
      unfold Rdiv. rewrite Rmult_assoc, Rinv_l by lra. lra.
Qed.

Lemma py_max_Rmax a b : py_max a b = Rmax a b.
Proof.
  unfold py_max, Rmax. destruct (Rlt_dec a b), (Rle_dec a b); lra.
Qed.

Lemma py_min_Rmin a b : py_min a b = Rmin a b.
Proof.
  unfold py_min, Rmin. destruct (Rlt_dec b a), (Rle_dec a b); lra.
Qed.

Lemma wheel_change w : w <> 0 -> py_div w (Z.abs w) = Some (IZR (Z.sgn w)).
Proof.
  intros Hw. unfold py_div. destruct (Z.eqb_spec (Z.abs w) 0); [lia|].
  unfold ret. f_equal.
  destruct (Z_lt_le_dec 0 w).
  - rewrite Z.abs_eq, Z.sgn_pos by lia. field. apply not_0_IZR. lia.
  - rewrite Z.abs_neq, Z.sgn_neg by lia. rewrite opp_IZR. field. apply not_0_IZR. lia.
Qed.

Lemma py_div_100 n : py_div n 100 = Some (IZR n / 100)%R.
Proof. reflexivity. Qed.

(** ** Windings of the two triangles of one cell *)

Lemma sphere_cell11_dots :
  let m := sphere_mesh 1 3 3 sample_color in
  In (5, 9, 6) (triangles (s_indices m)) /\
  (dot (face_normal (s_vertices m) (5, 9, 6)%Z) (average_normal (s_vertices m) (5, 9, 6)%Z) < 0)%R /\
  In (10, 9, 6) (triangles (s_indices m)) /\
  (0 < dot (face_normal (s_vertices m) (10, 9, 6)%Z) (average_normal (s_vertices m) (10, 9, 6)%Z))%R.
Proof.
  intros m.
  assert (Hrow : In (cell_row 4 4 1 1)
            (grid_map (sphere_phis 3) (sphere_thetas 3) (fun i _ j _ => cell_row 4 4 i j))).
  { exact (grid_row_in (sphere_phis 3) (sphere_thetas 3) (fun i _ j _ => cell_row 4 4 i j)
             1 1 0%R ltac:(unfold sphere_phis; rewrite linspace_samples_length; simpl; lia)
             ltac:(unfold sphere_thetas; rewrite linspace_samples_length; simpl; lia)). }
  assert (Htri : forall t, In t (triangles (cell_row 4 4 1 1)) -> In t (triangles (s_indices m))).
  { intros t Ht. change (s_indices m) with (concat (grid_map (sphere_phis 3) (sphere_thetas 3)
                                               (fun i _ j _ => cell_row 4 4 i j))).
    rewrite triangles_concat by apply cell_rows_length.
    apply in_flat_map. eauto. }
  assert (Ph1 : nth 1 (sphere_phis 3) 0%R = (- (PI / 6))%R).
  { unfold sphere_phis. rewrite linspace_nth by (simpl; lia). simpl. field. }
  assert (Ph2 : nth 2 (sphere_phis 3) 0%R = (PI / 6)%R).
  { unfold sphere_phis. rewrite linspace_nth by (simpl; lia). simpl. field. }
  assert (Th1 : nth 1 (sphere_thetas 3) 0%R = (- (PI / 3))%R).
  { unfold sphere_thetas. rewrite linspace_nth by (simpl; lia). simpl. field. }
  assert (Th2 : nth 2 (sphere_thetas 3) 0%R = (PI / 3)%R).
  { unfold sphere_thetas. rewrite linspace_nth by (simpl; lia). simpl. field. }
  assert (At : forall i j, 0 <= i <= 3 -> 0 <= j <= 3 ->
            vertex_at (s_vertices m) (i * 4 + j)
            = sphere_vertex 1 3 3 sample_color i (nth (Z.to_nat i) (sphere_phis 3) 0%R)
                            j (nth (Z.to_nat j) (sphere_thetas 3) 0%R)).
  { intros i j Hi Hj. exact (sphere_mesh_at 1 3 3 sample_color i j Hi Hj). }
  pose proof (At 1 1 ltac:(lia) ltac:(lia)) as V5.
  pose proof (At 2 1 ltac:(lia) ltac:(lia)) as V9.
  pose proof (At 1 2 ltac:(lia) ltac:(lia)) as V6.
  pose proof (At 2 2 ltac:(lia) ltac:(lia)) as V10.
  change (Z.to_nat 1) with 1%nat in V5, V9, V6, V10.
  change (Z.to_nat 2) with 2%nat in V5, V9, V6, V10.
  simpl Z.mul in V5, V9, V6, V10. simpl Z.add in V5, V9, V6, V10.
  rewrite Ph1, Th1 in V5. rewrite Ph2, Th1 in V9.
  rewrite Ph1, Th2 in V6. rewrite Ph2, Th2 in V10.
  pose proof (sqrt_lt_R0 3 ltac:(lra)) as S0.
  pose proof (sqrt_sqrt 3 ltac:(lra)) as S1.
  unfold face_normal, average_normal. cbv beta iota zeta.
  rewrite V5, V9, V6, V10.
  unfold sample_color, sphere_vertex, position, normal. cbv beta iota zeta.
  cbn [vx vy vz vnx vny vnz].
  rewrite ?cos_neg, ?sin_neg, cos_PI6, sin_PI6, cos_PI3, sin_PI3.
  unfold vsub, vadd, vscale, cross, dot. cbv beta iota zeta.
  split; [apply Htri; left; reflexivity|].
  split; [nra|].
  split; [apply Htri; right; left; reflexivity|].
  nra.
Qed.

Lemma torus_cell11_dots :
  let m := torus_mesh 0.25 0.5 4 4 sample_color in
  In (6, 11, 7) (triangles (t_indices m)) /\
  (0 < dot (face_normal (t_vertices m) (6, 11, 7)%Z) (average_normal (t_vertices m) (6, 11, 7)%Z))%R /\
  In (12, 11, 7) (triangles (t_indices m)) /\
  (dot (face_normal (t_vertices m) (12, 11, 7)%Z) (average_normal (t_vertices m) (12, 11, 7)%Z) < 0)%R.
Proof.
  intros m.
  assert (Hrow : In (cell_row 5 5 1 1)
            (grid_map (torus_params 4) (torus_params 4) (fun i _ j _ => cell_row 5 5 i j))).
  { exact (grid_row_in (torus_params 4) (torus_params 4) (fun i _ j _ => cell_row 5 5 i j)
             1 1 0%R ltac:(unfold torus_params; rewrite linspace_samples_length; simpl; lia)
             ltac:(unfold torus_params; rewrite linspace_samples_length; simpl; lia)). }
  assert (Htri : forall t, In t (triangles (cell_row 5 5 1 1)) -> In t (triangles (t_indices m))).
  { intros t Ht. change (t_indices m) with (concat (grid_map (torus_params 4) (torus_params 4)
                                               (fun i _ j _ => cell_row 5 5 i j))).
    rewrite triangles_concat by apply cell_rows_length.
    apply in_flat_map. eauto. }
  assert (P1 : nth 1 (torus_params 4) 0%R = (- (PI / 2))%R).
  { unfold torus_params. rewrite linspace_nth by (simpl; lia). simpl. field. }
  assert (P2 : nth 2 (torus_params 4) 0%R = 0%R).
  { unfold torus_params. rewrite linspace_nth by (simpl; lia). simpl. field. }
  assert (At : forall i j, 0 <= i <= 4 -> 0 <= j <= 4 ->
            vertex_at (t_vertices m) (i * (4 + 1) + j)
            = torus_vertex ((0.5 + 0.25) / 2) ((0.5 - 0.25) / 2) 4 4 sample_color
                i (nth (Z.to_nat i) (torus_params 4) 0%R)
                j (nth (Z.to_nat j) (torus_params 4) 0%R)).
  { intros i j Hi Hj. apply torus_mesh_at; lia. }
  pose proof (At 1 1 ltac:(lia) ltac:(lia)) as V6.
  pose proof (At 2 1 ltac:(lia) ltac:(lia)) as V11.
  pose proof (At 1 2 ltac:(lia) ltac:(lia)) as V7.
  pose proof (At 2 2 ltac:(lia) ltac:(lia)) as V12.
  change (Z.to_nat 1) with 1%nat in V6, V11, V7, V12.
  change (Z.to_nat 2) with 2%nat in V6, V11, V7, V12.
  simpl Z.mul in V6, V11, V7, V12. simpl Z.add in V6, V11, V7, V12.
  rewrite P1 in V6, V11, V7. rewrite P2 in V11, V7, V12.
  unfold face_normal, average_normal. cbv beta iota zeta.
  rewrite V6, V11, V7, V12.
  unfold sample_color, torus_vertex, position, normal. cbv beta iota zeta.
  cbn [vx vy vz vnx vny vnz].
  rewrite ?cos_neg, ?sin_neg, cos_PI2, sin_PI2, cos_0, sin_0.
  rewrite (np_sign_pos ((0.5 - 0.25) / 2)) by lra.
  rewrite ?Rmult_0_r, ?Rplus_0_r, ?Rmult_1_r.
  rewrite ?(np_sign_pos ((0.5 + 0.25) / 2)) by lra.
  rewrite ?(np_sign_pos ((0.5 + 0.25) / 2 + (0.5 - 0.25) / 2)) by lra.
  unfold vsub, vadd, vscale, cross, dot. cbv beta iota zeta.
  split; [apply Htri; left; reflexivity|].
  split; [lra|].
  split; [apply Htri; right; left; reflexivity|].
  lra.
Qed.

(** * Claims *)

(** C1: the sphere raises a division count below 3 to 3, but the
    torus stores and uses its counts unchanged: [generate(0.25, 0.5, 1, 1)]
    keeps [nsides = rings = 1] and builds a 2 x 2 grid of 4 vertices. *)
Theorem torus_division_counts_not_clamped :
  (forall radius slices stacks c,
     exists st, sphere_generate radius slices stacks c = Some st /\
       3 <= s_slices st /\ 3 <= s_stacks st /\
       (3 <= slices -> s_slices st = slices) /\ (3 <= stacks -> s_stacks st = stacks)) /\
  (exists st, torus_generate 0.25 0.5 1 1 sample_color = Some st /\
     t_nsides st = 1 /\ t_rings st = 1 /\ length (t_vertices st) = 4%nat).
Proof.
  split.
  - intros radius slices stacks c. exists (sphere_mesh radius slices stacks c).
    split; [apply sphere_generate_eq|]. simpl.
    split; [apply clamp3_ge|]. split; [apply clamp3_ge|].
    split; intros; apply clamp3_id; assumption.
  - exists (torus_mesh 0.25 0.5 1 1 sample_color). split.
    + apply torus_generate_mesh; try lia.
      * apply order_radii_le. lra.
      * lra.
    + split; [reflexivity|]. split; [reflexivity|].
      unfold torus_mesh; cbn [t_vertices]. rewrite grid_map_length.
      unfold torus_params. rewrite linspace_samples_length. reflexivity.
Qed.

(** C2: the index buffer of every sphere, and of every torus returned with
    [b <> 0], has [6 * (divisions_a + 1) * (divisions_b + 1)] entries, each in
    [[0, vertexCount)]. *)
Theorem generated_index_buffer_length_and_range :
  (forall radius slices stacks c,
     exists st, sphere_generate radius slices stacks c = Some st /\
       Z.of_nat (length (s_indices st)) = 6 * (s_slices st + 1) * (s_stacks st + 1) /\
       (forall k, In k (s_indices st) -> 0 <= k < Z.of_nat (length (s_vertices st)))) /\
  (forall inner outer nsides rings c st,
     torus_generate inner outer nsides rings c = Some st ->
     ((t_outerRadius st - t_innerRadius st) / 2)%R <> 0%R ->
     Z.of_nat (length (t_indices st)) = 6 * (t_nsides st + 1) * (t_rings st + 1) /\
     (forall k, In k (t_indices st) -> 0 <= k < Z.of_nat (length (t_vertices st)))).
Proof.
  split; [|exact torus_indices_ok].
  intros radius slices stacks c. exists (sphere_mesh radius slices stacks c).
  split; [apply sphere_generate_eq|].
  pose proof (clamp3_ge slices). pose proof (clamp3_ge stacks).
  unfold sphere_mesh; simpl.
  pose proof (grid_indices_ok (sphere_phis (clamp3 slices)) (sphere_thetas (clamp3 stacks)))
    as [G1 G2].
  unfold sphere_phis, sphere_thetas in *. rewrite !linspace_samples_length in *.
  rewrite !Z2Nat.id in G1, G2 by lia.
  split; [exact G1|]. intros k Hk. apply G2 in Hk.
  rewrite grid_map_length, !linspace_samples_length. lia.
Qed.

Lemma generated_index_buffer_length_and_range_witness :
  exists st, torus_generate 0.25 0.5 4 4 sample_color = Some st /\
    ((t_outerRadius st - t_innerRadius st) / 2)%R <> 0%R /\
    Z.of_nat (length (t_indices st)) = 6 * (t_nsides st + 1) * (t_rings st + 1).
Proof.
  exists (torus_mesh 0.25 0.5 4 4 sample_color).
  assert (E : torus_generate 0.25 0.5 4 4 sample_color
              = Some (torus_mesh 0.25 0.5 4 4 sample_color)).
  { apply torus_generate_mesh; try lia; [apply order_radii_le; lra | lra]. }
  assert (Hb : ((t_outerRadius (torus_mesh 0.25 0.5 4 4 sample_color)
                 - t_innerRadius (torus_mesh 0.25 0.5 4 4 sample_color)) / 2)%R <> 0%R)
    by (simpl; lra).
  split; [exact E|]. split; [exact Hb|].
  exact (proj1 (proj2 generated_index_buffer_length_and_range
                  0.25%R 0.5%R 4 4 sample_color _ E Hb)).
Defined.

(** C3: indices are emitted for every vertex of the grid, the
    cell of [(i, j)] for all [0 <= i <= slices], [0 <= j <= stacks], so the
    sphere's index buffer has [6 * (slices + 1) * (stacks + 1)] entries; for
    [radius = 1, slices = stacks = 3]: 16 vertices and 96 indices. *)
Theorem sphere_index_count :
  (forall radius slices stacks c,
     exists st, sphere_generate radius slices stacks c = Some st /\
       Z.of_nat (length (s_vertices st)) = (s_slices st + 1) * (s_stacks st + 1) /\
       Z.of_nat (length (s_indices st)) = 6 * (s_slices st + 1) * (s_stacks st + 1) /\
       (forall i j, 0 <= i <= s_slices st -> 0 <= j <= s_stacks st ->
          firstn 6 (skipn (Z.to_nat (6 * (i * (s_stacks st + 1) + j))) (s_indices st))
          = cell_row (s_slices st + 1) (s_stacks st + 1) i j)) /\
  (exists st, sphere_generate 1 3 3 sample_color = Some st /\
     length (s_vertices st) = 16%nat /\ length (s_indices st) = 96%nat).
Proof.
  assert (Gen : forall radius slices stacks c,
     let st := sphere_mesh radius slices stacks c in
       Z.of_nat (length (s_vertices st)) = (s_slices st + 1) * (s_stacks st + 1) /\
       Z.of_nat (length (s_indices st)) = 6 * (s_slices st + 1) * (s_stacks st + 1) /\
       (forall i j, 0 <= i <= s_slices st -> 0 <= j <= s_stacks st ->
          firstn 6 (skipn (Z.to_nat (6 * (i * (s_stacks st + 1) + j))) (s_indices st))
          = cell_row (s_slices st + 1) (s_stacks st + 1) i j)).
  { intros radius slices stacks c st. subst st.
    pose proof (clamp3_ge slices). pose proof (clamp3_ge stacks).
    unfold sphere_mesh; cbn [s_vertices s_indices s_slices s_stacks].
    set (xs := sphere_phis (clamp3 slices)). set (ys := sphere_thetas (clamp3 stacks)).
    assert (Lx : length xs = Z.to_nat (clamp3 slices + 1))
      by apply linspace_samples_length.
    assert (Ly : length ys = Z.to_nat (clamp3 stacks + 1))
      by apply linspace_samples_length.
    split; [rewrite grid_map_length; lia|].
    split.
    - rewrite length_concat_rows by apply cell_rows_length.
      rewrite grid_map_length. lia.
    - intros i j Hi Hj.
      replace (Z.to_nat (6 * (i * (clamp3 stacks + 1) + j)))
        with (6 * (Z.to_nat i * length ys + Z.to_nat j))%nat by lia.
      rewrite firstn_skipn_concat6.
      + rewrite (nth_grid_map _ _ _ _ _ _ 0%R) by lia.
        rewrite !Z2Nat.id by lia. reflexivity.
      + apply cell_rows_length.
      + rewrite grid_map_length. nia. }
  split.
  - intros radius slices stacks c. exists (sphere_mesh radius slices stacks c).
    split; [apply sphere_generate_eq | apply Gen].
  - exists (sphere_mesh 1 3 3 sample_color). split; [apply sphere_generate_eq|].
    destruct (Gen 1%R 3 3 sample_color) as [L1 [L2 _]].
    assert (E1 : s_slices (sphere_mesh 1 3 3 sample_color) = 3) by reflexivity.
    assert (E2 : s_stacks (sphere_mesh 1 3 3 sample_color) = 3) by reflexivity.
    rewrite E1, E2 in L1, L2. split; lia.
Qed.

(** C3: counterexample. The sphere with [radius = 1, slices = stacks = 3]
    does not have 54 indices. *)
Lemma sphere_3x3_index_count_not_54 :
  exists st, sphere_generate 1 3 3 sample_color = Some st /\
    length (s_indices st) <> 54%nat.
Proof.
  exists (sphere_mesh 1 3 3 sample_color). split; [apply sphere_generate_eq|].
  unfold sphere_mesh; cbn [s_indices].
  rewrite length_concat_rows by apply cell_rows_length.
  rewrite grid_map_length. unfold sphere_phis, sphere_thetas.
  rewrite !linspace_samples_length. simpl. lia.
Qed.

(** C4: the sphere always returns, but the torus raises
    ZeroDivisionError for [nsides = 0] (the count is used as the divisor of
    [i / nsides]): [generate(0.25, 0.5, 0, 36)] fails. *)
Theorem torus_generate_raises_on_zero_count :
  (forall radius slices stacks c, exists st, sphere_generate radius slices stacks c = Some st) /\
  torus_generate 0.25 0.5 0 36 sample_color = None.
Proof.
  split.
  - intros. eexists. apply sphere_generate_eq.
  - apply (torus_generate_zero_count _ _ 0.25 0.5).
    + apply order_radii_le. lra.
    + lra.
    + left. lia.
Qed.

(** C5: for [radius > 0], every vertex of the sphere is at distance
    [radius] from the origin and its normal is its position divided by
    [radius]. *)
Theorem sphere_vertices_on_sphere radius slices stacks c :
  (0 < radius)%R ->
  exists st, sphere_generate radius slices stacks c = Some st /\
    forall v, In v (s_vertices st) ->
      sqrt (vx v * vx v + vy v * vy v + vz v * vz v) = radius /\
      vnx v = (vx v / radius)%R /\ vny v = (vy v / radius)%R /\ vnz v = (vz v / radius)%R.
Proof.
  intros Hr. exists (sphere_mesh radius slices stacks c).
  split; [apply sphere_generate_eq|].
  intros v Hv. unfold sphere_mesh in Hv; cbn [s_vertices] in Hv.
  apply in_grid_map in Hv as (i & phi & j & theta & _ & _ & ->).
  destruct c as [[cr cg] cb]. unfold sphere_vertex; cbn [vx vy vz vnx vny vnz].
  pose proof (sin2_cos2 phi) as E1. pose proof (sin2_cos2 theta) as E2.
  unfold Rsqr in E1, E2.
  split; [|split; [|split]]; try (field; lra).
  replace (radius * cos phi * cos theta * (radius * cos phi * cos theta) +
           radius * cos phi * sin theta * (radius * cos phi * sin theta) +
           radius * sin phi * (radius * sin phi))%R
    with (radius * radius * (cos phi * cos phi * (sin theta * sin theta + cos theta * cos theta)
          + sin phi * sin phi))%R by ring.
  rewrite E2, Rmult_1_r, Rplus_comm, E1, Rmult_1_r.
  apply sqrt_square. lra.
Qed.

Lemma sphere_vertices_on_sphere_witness :
  (0 < 1)%R /\
  exists st, sphere_generate 1 30 30 sample_color = Some st /\
    forall v, In v (s_vertices st) ->
      sqrt (vx v * vx v + vy v * vy v + vz v * vz v) = 1%R /\
      vnx v = (vx v / 1)%R /\ vny v = (vy v / 1)%R /\ vnz v = (vz v / 1)%R.
Proof. split; [lra|]. apply sphere_vertices_on_sphere. lra. Defined.

(** C6: the seam of the sphere is along [j]: for every row [i],
    the vertices [(i, 0)] and [(i, stacks)] have the same position and
    normal, with first texture coordinates 0 and 1. The vertices [(0, j)]
    and [(slices, j)] have second texture coordinates 0 and 1, but they are
    the two poles [(0, 0, -radius)] and [(0, 0, radius)]. *)
Theorem sphere_seam_and_poles radius slices stacks c :
  exists st, sphere_generate radius slices stacks c = Some st /\
    (forall i, 0 <= i <= s_slices st ->
       position (sphere_at st i 0) = position (sphere_at st i (s_stacks st)) /\
       normal (sphere_at st i 0) = normal (sphere_at st i (s_stacks st)) /\
       vtu (sphere_at st i 0) = 0%R /\ vtu (sphere_at st i (s_stacks st)) = 1%R) /\
    (forall j, 0 <= j <= s_stacks st ->
       position (sphere_at st 0 j) = (0%R, 0%R, (- radius)%R) /\
       position (sphere_at st (s_slices st) j) = (0%R, 0%R, radius) /\
       vtv (sphere_at st 0 j) = 0%R /\ vtv (sphere_at st (s_slices st) j) = 1%R).
Proof.
  exists (sphere_mesh radius slices stacks c). split; [apply sphere_generate_eq|].
  split.
  - intros i Hi. apply sphere_seam. exact Hi.
  - intros j Hj.
    destruct (sphere_south radius slices stacks c j Hj) as [S1 S2].
    destruct (sphere_north radius slices stacks c j Hj) as [N1 N2].
    auto.
Qed.

(** C6: counterexample. For [radius = 1, slices = stacks = 3] the vertices
    at [(0, 0)] and [(slices, 0)] are at different positions. *)
Lemma sphere_pole_vertices_differ :
  exists st, sphere_generate 1 3 3 sample_color = Some st /\
    position (sphere_at st 0 0) <> position (sphere_at st (s_slices st) 0).
Proof.
  exists (sphere_mesh 1 3 3 sample_color). split; [apply sphere_generate_eq|].
  assert (E3 : s_stacks (sphere_mesh 1 3 3 sample_color) = 3) by reflexivity.
  assert (H0 : 0 <= 0 <= s_stacks (sphere_mesh 1 3 3 sample_color)) by (rewrite E3; lia).
  rewrite (proj1 (sphere_south 1 3 3 sample_color 0 H0)).
  rewrite (proj1 (sphere_north 1 3 3 sample_color 0 H0)).
  intros E. injection E as E. lra.
Qed.

(** C7: [generate] with [innerRadius > outerRadius] gives exactly what the
    swapped call gives. *)
Theorem torus_swap_idempotent r1 r2 nsides rings c :
  (r2 < r1)%R ->
  torus_generate r1 r2 nsides rings c = torus_generate r2 r1 nsides rings c.
Proof.
  intros H. unfold torus_generate.
  rewrite (order_radii_gt r1 r2 H), (order_radii_le r2 r1 (Rlt_le _ _ H)).
  reflexivity.
Qed.

Lemma torus_swap_idempotent_witness :
  (0.25 < 0.5)%R /\
  torus_generate 0.5 0.25 36 36 sample_color = torus_generate 0.25 0.5 36 36 sample_color.
Proof. split; [lra|]. apply torus_swap_idempotent. lra. Defined.

(** C8: when the tube radius [b] is 0 after ordering, [generate] returns
    normally with no vertices and no indices. *)
Theorem torus_zero_thickness_empty inner outer ri ro nsides rings c :
  order_radii inner outer = (ri, ro) -> ((ro - ri) / 2)%R = 0%R ->
  torus_generate inner outer nsides rings c
  = Some {| t_innerRadius := ri; t_outerRadius := ro; t_nsides := nsides;
            t_rings := rings; t_color := c; t_vertices := []; t_indices := [] |}.
Proof.
  intros Ho Hb. unfold torus_generate. rewrite Ho.
  destruct (Req_EM_T ((ro - ri) / 2) 0) as [_|E]; [reflexivity | contradiction].
Qed.

Lemma torus_zero_thickness_empty_witness :
  order_radii 0.3 0.3 = (0.3%R, 0.3%R) /\ ((0.3 - 0.3) / 2)%R = 0%R /\
  torus_generate 0.3 0.3 36 36 sample_color
  = Some {| t_innerRadius := 0.3; t_outerRadius := 0.3; t_nsides := 36;
            t_rings := 36; t_color := sample_color; t_vertices := []; t_indices := [] |}.
Proof.
  assert (Ho : order_radii 0.3 0.3 = (0.3%R, 0.3%R)) by (apply order_radii_le; lra).
  assert (Hb : ((0.3 - 0.3) / 2)%R = 0%R) by lra.
  split; [exact Ho|]. split; [exact Hb|].
  apply torus_zero_thickness_empty; assumption.
Defined.

(** C9: the code breaks the counter-clockwise rule for triangles that are
    not degenerate. The two triangles written for a cell,
    [i_by_j, ip1_by_j, i_by_jp1] and [ip1_by_jp1, ip1_by_j, i_by_jp1],
    traverse their shared edge in the same direction, so they have
    opposite windings. For the sphere with [radius = 1, slices = stacks = 3]
    the first triangle [(5, 9, 6)] of cell [(1, 1)] has a negative dot
    product; for the torus with radii [0.25, 0.5] and
    [nsides = rings = 4] the second triangle [(12, 11, 7)] of cell
    [(1, 1)] has one. In each pair the other triangle has a positive one. *)
Theorem emitted_triangles_wound_both_ways :
  (exists st, sphere_generate 1 3 3 sample_color = Some st /\
     In (5, 9, 6) (triangles (s_indices st)) /\
     ~ outward_ccw (s_vertices st) (5, 9, 6) /\
     (dot (face_normal (s_vertices st) (5, 9, 6)%Z) (average_normal (s_vertices st) (5, 9, 6)%Z) < 0)%R /\
     In (10, 9, 6) (triangles (s_indices st)) /\
     outward_ccw (s_vertices st) (10, 9, 6)%Z) /\
  (exists st, torus_generate 0.25 0.5 4 4 sample_color = Some st /\
     In (12, 11, 7) (triangles (t_indices st)) /\
     ~ outward_ccw (t_vertices st) (12, 11, 7) /\
     (dot (face_normal (t_vertices st) (12, 11, 7)%Z) (average_normal (t_vertices st) (12, 11, 7)%Z) < 0)%R /\
     In (6, 11, 7) (triangles (t_indices st)) /\
     outward_ccw (t_vertices st) (6, 11, 7)%Z).
Proof.
  split.
  - exists (sphere_mesh 1 3 3 sample_color). split; [apply sphere_generate_eq|].
    destruct sphere_cell11_dots as (I1 & D1 & I2 & D2).
    unfold outward_ccw. repeat split; try assumption; lra.
  - exists (torus_mesh 0.25 0.5 4 4 sample_color).
    split; [apply torus_generate_mesh; [apply order_radii_le; lra | lra | lia | lia]|].
    destruct torus_cell11_dots as (I1 & D1 & I2 & D2).
    unfold outward_ccw. repeat split; try assumption; lra.
Qed.

(** The two triangles of one cell are wound in opposite directions: for the
    cell [(1, 1)] of the sphere with [radius = 1, slices = stacks = 3], the
    face normal of the first triangle [(5, 9, 6)] points inward and that of
    the second [(10, 9, 6)] outward. *)
Lemma sphere_cell_triangles_wound_oppositely :
  let m := sphere_mesh 1 3 3 sample_color in
  In (5, 9, 6) (triangles (s_indices m)) /\
  (dot (face_normal (s_vertices m) (5, 9, 6)%Z) (average_normal (s_vertices m) (5, 9, 6)%Z) < 0)%R /\
  In (10, 9, 6) (triangles (s_indices m)) /\
  (0 < dot (face_normal (s_vertices m) (10, 9, 6)%Z) (average_normal (s_vertices m) (10, 9, 6)%Z))%R.
Proof. exact sphere_cell11_dots. Qed.

(** C10: every sphere emits triangles whose three vertices are not at
    pairwise distinct positions: the first triangle of every cell of the
    south-pole row [i = 0], of the wrap-around row [i = slices] and of the
    wrap-around column [j = stacks]. *)
Theorem sphere_degenerate_triangles radius slices stacks c :
  exists st, sphere_generate radius slices stacks c = Some st /\
    let A := s_slices st + 1 in
    let B := s_stacks st + 1 in
    (forall j, 0 <= j <= s_stacks st ->
       In (cell_tri1 A B 0 j) (triangles (s_indices st)) /\
       ~ tri_pairwise_distinct (s_vertices st) (cell_tri1 A B 0 j)) /\
    (forall j, 0 <= j <= s_stacks st ->
       In (cell_tri1 A B (s_slices st) j) (triangles (s_indices st)) /\
       ~ tri_pairwise_distinct (s_vertices st) (cell_tri1 A B (s_slices st) j)) /\
    (forall i, 0 <= i <= s_slices st ->
       In (cell_tri1 A B i (s_stacks st)) (triangles (s_indices st)) /\
       ~ tri_pairwise_distinct (s_vertices st) (cell_tri1 A B i (s_stacks st))).
Proof.
  exists (sphere_mesh radius slices stacks c). split; [apply sphere_generate_eq|].
  pose proof (clamp3_ge slices). pose proof (clamp3_ge stacks).
  assert (Es : s_slices (sphere_mesh radius slices stacks c) = clamp3 slices) by reflexivity.
  assert (Et : s_stacks (sphere_mesh radius slices stacks c) = clamp3 stacks) by reflexivity.
  intros A B. split; [|split].
  - intros j Hj. split; [apply sphere_tri1_in; rewrite ?Es, ?Et in *; lia|].
    unfold cell_tri1, tri_pairwise_distinct, pairwise_distinct.
    intros (_ & _ & D). apply D. apply sphere_pole_row_tri. exact Hj.
  - intros j Hj. split; [apply sphere_tri1_in; rewrite ?Es, ?Et in *; lia|].
    unfold cell_tri1, tri_pairwise_distinct, pairwise_distinct.
    intros (_ & _ & D). apply D. apply sphere_last_row_tri. exact Hj.
  - intros i Hi. split; [apply sphere_tri1_in; rewrite ?Es, ?Et in *; lia|].
    unfold cell_tri1, tri_pairwise_distinct, pairwise_distinct.
    intros (_ & _ & D). apply D. apply sphere_last_column_tri. exact Hi.
Qed.

(** * Further properties *)

(** X2: for a tube radius [b] different from 0, [DisplayableTorus.generate]
    raises exactly when [nsides <= -2], or [nsides >= 0] with [rings <= -2]
    or [rings = 0], or [nsides = 0] with [rings >= 1]; when it returns, the
    vertex array is non-empty exactly when [nsides >= 1] and [rings >= 1]. *)
Theorem torus_generate_outcome inner outer ri ro nsides rings c :
  order_radii inner outer = (ri, ro) -> ((ro - ri) / 2)%R <> 0%R ->
  (torus_generate inner outer nsides rings c = None <->
   nsides <= -2 \/ (0 <= nsides /\ (rings <= -2 \/ rings = 0)) \/ (nsides = 0 /\ 1 <= rings)) /\
  (forall st, torus_generate inner outer nsides rings c = Some st ->
   (t_vertices st <> [] <-> 1 <= nsides /\ 1 <= rings)).
Proof.
  intros Ho Hb. rewrite (torus_generate_cases _ _ ri ro) by exact Ho.
  destruct (Req_EM_T ((ro - ri) / 2) 0) as [E|_]; [contradiction|].
  destruct ((1 <=? nsides) && (1 <=? rings)) eqn:A.
  - apply andb_true_iff in A as [A1 A2]. apply Z.leb_le in A1, A2.
    split; [split; [discriminate | lia]|].
    intros st Hs. injection Hs as <-. unfold torus_mesh; cbn [t_vertices]. split; [intros _; lia|].
    intros _ Hn. apply (f_equal (@length vertex)) in Hn.
    rewrite grid_map_length in Hn. unfold torus_params in Hn.
    rewrite !linspace_samples_length in Hn. simpl in Hn. nia.
  - assert (~ (1 <= nsides /\ 1 <= rings)) as NA.
    { intros [? ?]. apply andb_false_iff in A as [A|A]; apply Z.leb_gt in A; lia. }
    destruct ((nsides =? -1) || ((rings =? -1) && (0 <=? nsides))) eqn:B.
    + split.
      * split; [discriminate|].
        apply orb_true_iff in B as [B|B]; [apply Z.eqb_eq in B; lia|].
        apply andb_true_iff in B as [B1 B2]. apply Z.eqb_eq in B1. apply Z.leb_le in B2. lia.
      * intros st Hs. injection Hs as <-. cbn [t_vertices]. tauto.
    + split.
      * split; [intros _|reflexivity].
        apply orb_false_iff in B as [B1 B2]. apply Z.eqb_neq in B1.
        apply andb_false_iff in B2 as [B2|B2]; [apply Z.eqb_neq in B2|apply Z.leb_gt in B2]; lia.
      * intros st Hs. discriminate.
Qed.

Lemma torus_generate_outcome_witness :
  order_radii 0.25 0.5 = (0.25%R, 0.5%R) /\ ((0.5 - 0.25) / 2)%R <> 0%R /\
  (torus_generate 0.25 0.5 0 3 sample_color = None <->
   0 <= -2 \/ (0 <= 0 /\ (3 <= -2 \/ 3 = 0)) \/ (0 = 0 /\ 1 <= 3)) /\
  (forall st, torus_generate 0.25 0.5 0 3 sample_color = Some st ->
   (t_vertices st <> [] <-> 1 <= 0 /\ 1 <= 3)).
Proof.
  assert (Ho : order_radii 0.25 0.5 = (0.25%R, 0.5%R)) by (apply order_radii_le; lra).
  assert (Hb : ((0.5 - 0.25) / 2)%R <> 0%R) by lra.
  split; [exact Ho|]. split; [exact Hb|].
  apply (torus_generate_outcome 0.25 0.5 0.25 0.5 0 3 sample_color Ho Hb).
Defined.

(** X3: every vertex of a returned torus lies on the torus of centre
    radius [a] and tube radius [b] computed from the stored radii:
    [(x^2 + y^2 + z^2 + a^2 - b^2)^2 = 4 a^2 (x^2 + y^2)]. *)
Theorem torus_vertices_on_torus inner outer nsides rings c st :
  torus_generate inner outer nsides rings c = Some st ->
  let a := ((t_outerRadius st + t_innerRadius st) / 2)%R in
  let b := ((t_outerRadius st - t_innerRadius st) / 2)%R in
  forall v, In v (t_vertices st) ->
    ((vx v * vx v + vy v * vy v + vz v * vz v + a * a - b * b)
     * (vx v * vx v + vy v * vy v + vz v * vz v + a * a - b * b)
     = 4 * (a * a) * (vx v * vx v + vy v * vy v))%R.
Proof.
  intros H a b v Hv.
  destruct (torus_generate_vertex _ _ _ _ _ _ _ H Hv) as (_ & _ & _ & i & u & j & w & _ & _ & ->).
  fold a b. destruct (t_color st) as [[cr cg] cb].
  unfold torus_vertex; cbn [vx vy vz].
  pose proof (sin2_cos2 u) as Eu. pose proof (sin2_cos2 w) as Ew. unfold Rsqr in Eu, Ew.
  set (cm := (a + b * cos w)%R).
  assert (Hxy : ((cm * cos u) * (cm * cos u) + (cm * sin u) * (cm * sin u) = cm * cm)%R).
  { replace ((cm * cos u) * (cm * cos u) + (cm * sin u) * (cm * sin u))%R
      with (cm * cm * (sin u * sin u + cos u * cos u))%R by ring.
    rewrite Eu. ring. }
  assert (Hz : ((b * sin w) * (b * sin w) = b * b - b * b * (cos w * cos w))%R).
  { replace ((b * sin w) * (b * sin w))%R with (b * b * (sin w * sin w))%R by ring.
    replace (sin w * sin w)%R with (1 - cos w * cos w)%R by lra. ring. }
  rewrite Hxy, Hz. unfold cm. ring.
Qed.

Lemma torus_vertices_on_torus_witness :
  torus_generate 0.25 0.5 4 4 sample_color = Some torus_sample /\
  let a := ((t_outerRadius torus_sample + t_innerRadius torus_sample) / 2)%R in
  let b := ((t_outerRadius torus_sample - t_innerRadius torus_sample) / 2)%R in
  forall v, In v (t_vertices torus_sample) ->
    ((vx v * vx v + vy v * vy v + vz v * vz v + a * a - b * b)
     * (vx v * vx v + vy v * vy v + vz v * vz v + a * a - b * b)
     = 4 * (a * a) * (vx v * vx v + vy v * vy v))%R.
Proof.
  split; [exact torus_sample_generated|].
  apply (torus_vertices_on_torus 0.25 0.5 4 4 sample_color torus_sample torus_sample_generated).
Defined.

(** X4: when the stored inner radius is positive, every vertex normal of a
    returned torus has length 1, and stepping [b] back along it from the
    vertex lands on the centre circle of radius [a] in the plane [z = 0]. *)
Theorem torus_normals_outward_unit inner outer nsides rings c st :
  torus_generate inner outer nsides rings c = Some st ->
  (0 < t_innerRadius st)%R ->
  let a := ((t_outerRadius st + t_innerRadius st) / 2)%R in
  let b := ((t_outerRadius st - t_innerRadius st) / 2)%R in
  forall v, In v (t_vertices st) ->
    (vnx v * vnx v + vny v * vny v + vnz v * vnz v = 1)%R /\
    ((vx v - b * vnx v) * (vx v - b * vnx v) + (vy v - b * vny v) * (vy v - b * vny v)
     = a * a)%R /\
    (vz v - b * vnz v = 0)%R.
Proof.
  intros H Hi a b v Hv.
  destruct (torus_generate_vertex _ _ _ _ _ _ _ H Hv) as (_ & _ & Hb & i & u & j & w & _ & _ & ->).
  fold a b in Hb |- *. destruct (t_color st) as [[cr cg] cb].
  unfold torus_vertex; cbn [vx vy vz vnx vny vnz].
  pose proof (COS_bound w) as [Cw _].
  assert (Hc : (0 < a + b * cos w)%R).
  { unfold a, b in *. nra. }
  rewrite (np_sign_pos b Hb), (np_sign_pos _ Hc).
  pose proof (sin2_cos2 u) as Eu. pose proof (sin2_cos2 w) as Ew. unfold Rsqr in Eu, Ew.
  split; [|split].
  - replace (1 * cos u * cos w * 1 * (1 * cos u * cos w * 1) +
             1 * sin u * cos w * 1 * (1 * sin u * cos w * 1) + 1 * sin w * 1 * (1 * sin w * 1))%R
      with ((sin u * sin u + cos u * cos u) * (cos w * cos w) + sin w * sin w)%R by ring.
    rewrite Eu. lra.
  - replace ((a + b * cos w) * cos u - b * (1 * cos u * cos w * 1))%R with (a * cos u)%R by ring.
    replace ((a + b * cos w) * sin u - b * (1 * sin u * cos w * 1))%R with (a * sin u)%R by ring.
    replace (a * cos u * (a * cos u) + a * sin u * (a * sin u))%R
      with (a * a * (sin u * sin u + cos u * cos u))%R by ring.
    rewrite Eu. ring.
  - ring.
Qed.

Lemma torus_normals_outward_unit_witness :
  torus_generate 0.25 0.5 4 4 sample_color = Some torus_sample /\
  (0 < t_innerRadius torus_sample)%R /\
  let a := ((t_outerRadius torus_sample + t_innerRadius torus_sample) / 2)%R in
  let b := ((t_outerRadius torus_sample - t_innerRadius torus_sample) / 2)%R in
  forall v, In v (t_vertices torus_sample) ->
    (vnx v * vnx v + vny v * vny v + vnz v * vnz v = 1)%R /\
    ((vx v - b * vnx v) * (vx v - b * vnx v) + (vy v - b * vny v) * (vy v - b * vny v)
     = a * a)%R /\
    (vz v - b * vnz v = 0)%R.
Proof.
  assert (Hi : (0 < t_innerRadius torus_sample)%R) by (simpl; lra).
  split; [exact torus_sample_generated|]. split; [exact Hi|].
  apply (torus_normals_outward_unit 0.25 0.5 4 4 sample_color torus_sample
           torus_sample_generated Hi).
Defined.

(** X5: every vertex of a returned torus carries the color passed to
    [generate], and texture coordinates in [[0, 1]]. *)
Theorem torus_vertex_color_uv inner outer nsides rings c st :
  torus_generate inner outer nsides rings c = Some st ->
  forall v, In v (t_vertices st) ->
    (vcr v, vcg v, vcb v) = c /\ (0 <= vtu v <= 1)%R /\ (0 <= vtv v <= 1)%R.
Proof.
  intros H v Hv.
  assert (Hc : t_color st = c).
  { destruct (order_radii inner outer) as [ri ro] eqn:Ho.
    rewrite (torus_generate_cases _ _ ri ro) in H by exact Ho.
    destruct (Req_EM_T _ _); [injection H as <-; reflexivity|].
    destruct (_ && _); [injection H as <-; reflexivity|].
    destruct (_ || _); [injection H as <-; reflexivity | discriminate]. }
  destruct (torus_generate_vertex _ _ _ _ _ _ _ H Hv)
    as (Hn & Hr & _ & i & u & j & w & Hi & Hj & ->).
  rewrite Hc. destruct c as [[cr cg] cb].
  unfold torus_vertex; cbn [vx vy vz vcr vcg vcb vtu vtv].
  apply IZR_le in Hn, Hr. destruct Hi as [Hi0 Hi1], Hj as [Hj0 Hj1].
  apply IZR_le in Hi0, Hi1, Hj0, Hj1.
  split; [reflexivity|]. split; apply ratio_unit; lra.
Qed.

Lemma torus_vertex_color_uv_witness :
  torus_generate 0.25 0.5 4 4 sample_color = Some torus_sample /\
  forall v, In v (t_vertices torus_sample) ->
    (vcr v, vcg v, vcb v) = sample_color /\ (0 <= vtu v <= 1)%R /\ (0 <= vtv v <= 1)%R.
Proof.
  split; [exact torus_sample_generated|].
  apply (torus_vertex_color_uv 0.25 0.5 4 4 sample_color torus_sample torus_sample_generated).
Defined.

(** X6: the torus grid closes on itself: columns [i = 0] and [i = nsides]
    have the same positions and normals (with [u] going from 0 to 1), and so
    do rows [j = 0] and [j = rings] (with [v] going from 0 to 1). *)
Theorem torus_seams_closed inner outer ri ro nsides rings c :
  order_radii inner outer = (ri, ro) -> ((ro - ri) / 2)%R <> 0%R ->
  1 <= nsides -> 1 <= rings ->
  exists st, torus_generate inner outer nsides rings c = Some st /\
    (forall j, 0 <= j <= rings ->
       position (torus_at st 0 j) = position (torus_at st nsides j) /\
       normal (torus_at st 0 j) = normal (torus_at st nsides j) /\
       vtu (torus_at st 0 j) = 0%R /\ vtu (torus_at st nsides j) = 1%R /\
       vtv (torus_at st 0 j) = vtv (torus_at st nsides j)) /\
    (forall i, 0 <= i <= nsides ->
       position (torus_at st i 0) = position (torus_at st i rings) /\
       normal (torus_at st i 0) = normal (torus_at st i rings) /\
       vtv (torus_at st i 0) = 0%R /\ vtv (torus_at st i rings) = 1%R /\
       vtu (torus_at st i 0) = vtu (torus_at st i rings)).
Proof.
  intros Ho Hb Hn Hr. exists (torus_mesh ri ro nsides rings c).
  split; [apply torus_generate_mesh; assumption|].
  unfold torus_at. change (t_rings (torus_mesh ri ro nsides rings c)) with rings.
  destruct c as [[cr cg] cb].
  split.
  - intros j Hj. rewrite !torus_mesh_at by lia.
    rewrite torus_param_last by lia. change (Z.to_nat 0) with 0%nat. rewrite torus_param_first by lia.
    unfold torus_vertex, position, normal; cbn [vx vy vz vnx vny vnz vtu vtv].
    rewrite cos_neg, sin_neg, sin_PI, Ropp_0.
    repeat split; try reflexivity; field; apply not_0_IZR; lia.
  - intros i Hi. rewrite !torus_mesh_at by lia.
    rewrite torus_param_last by lia. change (Z.to_nat 0) with 0%nat. rewrite torus_param_first by lia.
    unfold torus_vertex, position, normal; cbn [vx vy vz vnx vny vnz vtu vtv].
    rewrite cos_neg, sin_neg, sin_PI, Ropp_0.
    repeat split; try reflexivity; field; apply not_0_IZR; lia.
Qed.

Lemma torus_seams_closed_witness :
  order_radii 0.25 0.5 = (0.25%R, 0.5%R) /\ ((0.5 - 0.25) / 2)%R <> 0%R /\
  exists st, torus_generate 0.25 0.5 4 4 sample_color = Some st /\
    (forall j, 0 <= j <= 4 ->
       position (torus_at st 0 j) = position (torus_at st 4 j) /\
       normal (torus_at st 0 j) = normal (torus_at st 4 j) /\
       vtu (torus_at st 0 j) = 0%R /\ vtu (torus_at st 4 j) = 1%R /\
       vtv (torus_at st 0 j) = vtv (torus_at st 4 j)) /\
    (forall i, 0 <= i <= 4 ->
       position (torus_at st i 0) = position (torus_at st i 4) /\
       normal (torus_at st i 0) = normal (torus_at st i 4) /\
       vtv (torus_at st i 0) = 0%R /\ vtv (torus_at st i 4) = 1%R /\
       vtu (torus_at st i 0) = vtu (torus_at st i 4)).
Proof.
  assert (Ho : order_radii 0.25 0.5 = (0.25%R, 0.5%R)) by (apply order_radii_le; lra).
  assert (Hb : ((0.5 - 0.25) / 2)%R <> 0%R) by lra.
  split; [exact Ho|]. split; [exact Hb|].
  apply (torus_seams_closed 0.25 0.5 0.25 0.5 4 4 sample_color Ho Hb); lia.
Defined.

(** X7: with inner radius 0 (after ordering) the rows [j = 0] and
    [j = rings] of the torus collapse to the origin, where both the
    position and the normal are the zero vector. *)
Theorem torus_zero_inner_radius_pinched inner outer ro nsides rings c :
  order_radii inner outer = (0%R, ro) -> ro <> 0%R -> 1 <= nsides -> 1 <= rings ->
  exists st, torus_generate inner outer nsides rings c = Some st /\
    forall i j, 0 <= i <= nsides -> j = 0 \/ j = rings ->
      position (torus_at st i j) = (0%R, 0%R, 0%R) /\
      normal (torus_at st i j) = (0%R, 0%R, 0%R).
Proof.
  intros Ho Hro Hn Hr. exists (torus_mesh 0 ro nsides rings c).
  split; [apply torus_generate_mesh; [assumption | lra | lia | lia]|].
  intros i j Hi Hj. unfold torus_at.
  change (t_rings (torus_mesh 0 ro nsides rings c)) with rings.
  rewrite torus_mesh_at by lia.
  assert (Ew : nth (Z.to_nat j) (torus_params rings) 0%R = (- PI)%R \/
               nth (Z.to_nat j) (torus_params rings) 0%R = PI).
  { destruct Hj as [->| ->]; [left; apply torus_param_first | right; apply torus_param_last]; lia. }
  set (w := nth (Z.to_nat j) (torus_params rings) 0%R) in *.
  assert (Cw : cos w = (-1)%R) by (destruct Ew as [-> | ->]; rewrite ?cos_neg; apply cos_PI).
  assert (Sw : sin w = 0%R) by (destruct Ew as [-> | ->]; rewrite ?sin_neg, sin_PI; lra).
  destruct c as [[cr cg] cb].
  unfold torus_vertex, position, normal; cbn [vx vy vz vnx vny vnz].
  replace ((ro + 0) / 2 + (ro - 0) / 2 * cos w)%R with 0%R by (rewrite Cw; field).
  rewrite np_sign_zero, Sw.
  split; (apply (f_equal2 pair); [apply (f_equal2 pair)|]; ring).
Qed.

Lemma torus_zero_inner_radius_pinched_witness :
  order_radii 0 1 = (0%R, 1%R) /\ (1 <> 0)%R /\
  exists st, torus_generate 0 1 4 4 sample_color = Some st /\
    forall i j, 0 <= i <= 4 -> j = 0 \/ j = 4 ->
      position (torus_at st i j) = (0%R, 0%R, 0%R) /\
      normal (torus_at st i j) = (0%R, 0%R, 0%R).
Proof.
  assert (Ho : order_radii 0 1 = (0%R, 1%R)) by (apply order_radii_le; lra).
  assert (H1 : (1 <> 0)%R) by lra.
  split; [exact Ho|]. split; [exact H1|].
  apply (torus_zero_inner_radius_pinched 0 1 1 4 4 sample_color Ho H1); lia.
Defined.

(** X8: every vertex position of the sphere is [radius] times its normal,
    and every normal has length 1. *)
Theorem sphere_position_radius_times_unit_normal radius slices stacks c :
  exists st, sphere_generate radius slices stacks c = Some st /\
    forall v, In v (s_vertices st) ->
      position v = vscale radius (normal v) /\
      (vnx v * vnx v + vny v * vny v + vnz v * vnz v = 1)%R.
Proof.
  exists (sphere_mesh radius slices stacks c). split; [apply sphere_generate_eq|].
  intros v Hv. unfold sphere_mesh in Hv; cbn [s_vertices] in Hv.
  apply in_grid_map in Hv as (i & phi & j & theta & _ & _ & ->).
  destruct c as [[cr cg] cb].
  unfold sphere_vertex, position, normal, vscale; cbn [vx vy vz vnx vny vnz].
  pose proof (sin2_cos2 phi) as E1. pose proof (sin2_cos2 theta) as E2.
  unfold Rsqr in E1, E2. split.
  - apply (f_equal2 pair); [apply (f_equal2 pair)|]; ring.
  - replace (cos phi * cos theta * (cos phi * cos theta) + cos phi * sin theta * (cos phi * sin theta) +
             sin phi * sin phi)%R
      with (cos phi * cos phi * (sin theta * sin theta + cos theta * cos theta) + sin phi * sin phi)%R
      by ring.
    rewrite E2. lra.
Qed.

(** X9: every vertex of the sphere carries the color passed to
    [generate], and texture coordinates in [[0, 1]]. *)
Theorem sphere_vertex_color_uv radius slices stacks c :
  exists st, sphere_generate radius slices stacks c = Some st /\
    (forall v, In v (s_vertices st) ->
       (vcr v, vcg v, vcb v) = c /\ (0 <= vtu v <= 1)%R /\ (0 <= vtv v <= 1)%R) /\
    (forall i j, 0 <= i <= s_slices st -> 0 <= j <= s_stacks st ->
       vtu (sphere_at st i j) = (IZR j / IZR (s_stacks st))%R /\
       vtv (sphere_at st i j) = (IZR i / IZR (s_slices st))%R).
Proof.
  exists (sphere_mesh radius slices stacks c). split; [apply sphere_generate_eq|].
  split.
  - intros v Hv. unfold sphere_mesh in Hv; cbn [s_vertices] in Hv.
    apply in_grid_map in Hv as (i & phi & j & theta & Hi & Hj & ->).
    unfold sphere_phis, sphere_thetas in Hi, Hj. rewrite linspace_samples_length in Hi, Hj.
    pose proof (clamp3_ge slices). pose proof (clamp3_ge stacks).
    destruct c as [[cr cg] cb].
    unfold sphere_vertex; cbn [vcr vcg vcb vtu vtv].
    split; [reflexivity|].
    split; apply ratio_unit; (split || idtac); apply IZR_le; lia.
  - intros i j Hi Hj. rewrite sphere_mesh_at by assumption.
    destruct c as [[cr cg] cb]. unfold sphere_vertex; cbn [vtu vtv].
    split; reflexivity.
Qed.

Lemma sphere_vertex_color_uv_witness :
  exists st, sphere_generate 1 3 3 sample_color = Some st /\
    (0 <= 2 <= s_slices st) /\ (0 <= 1 <= s_stacks st) /\
    vtu (sphere_at st 2 1) = (IZR 1 / IZR (s_stacks st))%R /\
    vtv (sphere_at st 2 1) = (IZR 2 / IZR (s_slices st))%R.
Proof.
  destruct (sphere_vertex_color_uv 1 3 3 sample_color) as [st [E [_ U]]].
  assert (Es : s_slices st = 3).
  { rewrite sphere_generate_eq in E. injection E as <-. reflexivity. }
  assert (Et : s_stacks st = 3).
  { rewrite sphere_generate_eq in E. injection E as <-. reflexivity. }
  exists st. split; [exact E|]. rewrite Es, Et in *.
  split; [lia|]. split; [lia|].
  apply U; rewrite ?Es, ?Et; lia.
Defined.

(** X10: [Sketch.getCameraPos] is at distance [cameraDis] from
    [lookAtPt], whatever the angles. *)
Theorem camera_distance_is_cameraDis s :
  let '(p0, p1, p2) := getCameraPos s in
  let '(l0, l1, l2) := lookAtPt s in
  ((p0 - l0) * (p0 - l0) + (p1 - l1) * (p1 - l1) + (p2 - l2) * (p2 - l2)
   = cameraDis s * cameraDis s)%R.
Proof.
  unfold getCameraPos. destruct (lookAtPt s) as [[l0 l1] l2].
  pose proof (sin2_cos2 (cameraTheta s)) as E1. pose proof (sin2_cos2 (cameraPhi s)) as E2.
  unfold Rsqr in E1, E2.
  set (d := cameraDis s) in *. set (ct := cos (cameraTheta s)) in *.
  set (st := sin (cameraTheta s)) in *. set (cp := cos (cameraPhi s)) in *.
  set (sp := sin (cameraPhi s)) in *.
  replace ((l0 + d * ct * cp - l0) * (l0 + d * ct * cp - l0) + (l1 + d * sp - l1) * (l1 + d * sp - l1) +
           (l2 + d * st * cp - l2) * (l2 + d * st * cp - l2))%R
    with (d * d * (cp * cp * (st * st + ct * ct) + sp * sp))%R by ring.
  rewrite E1. replace (cp * cp * 1 + sp * sp)%R with (sp * sp + cp * cp)%R by ring.
  rewrite E2. ring.
Qed.

(** X11: [Interrupt_Scroll] does nothing for a zero rotation; otherwise it
    moves the camera by 0.1 in the direction of the sign of the rotation,
    never below 0.01, changes nothing else and updates once. The UP and
    DOWN keys do the same for rotations 1 and -1 and update twice. *)
Theorem scroll_and_zoom_keys w nl s :
  (w = 0 -> Interrupt_Scroll w s = Some (s, [])) /\
  (w <> 0 ->
     Interrupt_Scroll w s
     = Some (set_view s (lookAtPt s) (upVector s)
               (Rmax (cameraDis s - IZR (Z.sgn w) * 0.1) 0.01) (cameraPhi s) (cameraTheta s),
             [ev_update]) /\
     (0.01 <= Rmax (cameraDis s - IZR (Z.sgn w) * 0.1) 0.01)%R) /\
  Interrupt_Keyboard nl WXK_UP s
  = Some (set_view s (lookAtPt s) (upVector s) (Rmax (cameraDis s - 0.1) 0.01)
            (cameraPhi s) (cameraTheta s), [ev_update; ev_update]) /\
  Interrupt_Keyboard nl WXK_DOWN s
  = Some (set_view s (lookAtPt s) (upVector s) (Rmax (cameraDis s + 0.1) 0.01)
            (cameraPhi s) (cameraTheta s), [ev_update; ev_update]).
Proof.
  assert (Sc : forall w, w <> 0 ->
     Interrupt_Scroll w s
     = Some (set_view s (lookAtPt s) (upVector s)
               (Rmax (cameraDis s - IZR (Z.sgn w) * 0.1) 0.01) (cameraPhi s) (cameraTheta s),
             [ev_update])).
  { intros w' Hw. unfold Interrupt_Scroll.
    destruct (Z.eqb_spec w' 0); [contradiction|].
    rewrite wheel_change by exact Hw. cbn [bind ret]. rewrite py_max_Rmax. reflexivity. }
  split; [|split; [|split]].
  - intros ->. reflexivity.
  - intros Hw. split; [apply Sc; exact Hw | apply Rmax_r].
  - unfold Interrupt_Keyboard. cbn [Z.eqb WXK_RETURN WXK_LEFT WXK_RIGHT WXK_UP Pos.eqb].
    rewrite (Sc 1) by lia. cbn [bind ret fst snd app].
    replace (cameraDis s - IZR (Z.sgn 1) * 0.1)%R with (cameraDis s - 0.1)%R
      by (simpl; ring).
    reflexivity.
  - unfold Interrupt_Keyboard. cbn [Z.eqb WXK_RETURN WXK_LEFT WXK_RIGHT WXK_UP WXK_DOWN Pos.eqb].
    rewrite (Sc (-1)) by lia. cbn [bind ret fst snd app].
    replace (cameraDis s - IZR (Z.sgn (-1)) * 0.1)%R with (cameraDis s + 0.1)%R
      by (simpl; ring).
    reflexivity.
Qed.

Lemma scroll_and_zoom_keys_witness :
  Interrupt_Scroll 120 sketch_init
  = Some (set_view sketch_init (lookAtPt sketch_init) (upVector sketch_init)
            (Rmax (cameraDis sketch_init - IZR (Z.sgn 120) * 0.1) 0.01)
            (cameraPhi sketch_init) (cameraTheta sketch_init), [ev_update]).
Proof.
  apply (proj1 (proj1 (proj2 (scroll_and_zoom_keys 120 0 sketch_init)) ltac:(lia))).
Defined.

(** X12: [Interrupt_MouseLeftDragging] always stores the new mouse
    position and changes only the two angles. A move with
    [dx^2 + dy^2 > 5] keeps them; otherwise [cameraPhi] becomes
    [cameraPhi - dy/100] clamped to [[-pi/2, pi/2]], and [cameraTheta]
    becomes [cameraTheta + dx/100] reduced to [[0, 2 pi)]. *)
Theorem left_drag_orbit x y s :
  let '(lx, ly) := last_mouse_leftPosition s in
  let dx := x - lx in
  let dy := y - ly in
  exists s', Interrupt_MouseLeftDragging x y s = Some s' /\
    last_mouse_leftPosition s' = (x, y) /\
    lookAtPt s' = lookAtPt s /\ upVector s' = upVector s /\ cameraDis s' = cameraDis s /\
    pauseScene s' = pauseScene s /\ ambientOn s' = ambientOn s /\
    diffuseOn s' = diffuseOn s /\ specularOn s' = specularOn s /\
    sceneIndex s' = sceneIndex s /\
    if 5 <? dx * dx + dy * dy then
      cameraPhi s' = cameraPhi s /\ cameraTheta s' = cameraTheta s
    else
      cameraPhi s' = Rmin (PI / 2) (Rmax (- PI / 2) (cameraPhi s - IZR dy / 100)) /\
      (- (PI / 2) <= cameraPhi s' <= PI / 2)%R /\
      (0 <= cameraTheta s' < 2 * PI)%R /\
      exists k, cameraTheta s' = (cameraTheta s + IZR dx / 100 + 2 * PI * IZR k)%R.
Proof.
  unfold Interrupt_MouseLeftDragging.
  destruct (last_mouse_leftPosition s) as [lx ly] eqn:L.
  cbv zeta. pose proof PI_RGT_0 as Hpi.
  destruct (5 <? (x - lx) * (x - lx) + (y - ly) * (y - ly)).
  - eexists. split; [reflexivity|]. cbn. repeat split; reflexivity.
  - rewrite !py_div_100. cbn [bind].
    set (phi := py_min (PI / 2) (py_max (- PI / 2) (cameraPhi s - IZR (y - ly) / 100))).
    assert (Ephi : phi = Rmin (PI / 2) (Rmax (- PI / 2) (cameraPhi s - IZR (y - ly) / 100)))
      by (unfold phi; rewrite py_max_Rmax, py_min_Rmin; reflexivity).
    assert (Bphi : (- (PI / 2) <= phi <= PI / 2)%R).
    { rewrite Ephi. split.
      - apply Rmin_glb; [lra|]. eapply Rle_trans; [|apply Rmax_l]. lra.
      - apply Rmin_l. }
    rewrite (py_fmod_2pi_small (phi + PI)) by lra. cbn [bind].
    destruct (py_fmod_2pi (cameraTheta s + IZR (x - lx) / 100)) as [t [Et [Bt [k Ek]]]].
    rewrite Et. cbn [bind ret]. eexists. split; [reflexivity|]. cbn.
    repeat split; try reflexivity; try lra.
    exists k. exact Ek.
Qed.

(** X13: LEFT and RIGHT switch to the previous and next scene modulo 4,
    always keeping [sceneIndex] in [[0, 4)]; from an index in [[0, 4)],
    RIGHT followed by LEFT restores every modelled attribute, and its
    second step switches in a newly built scene of the original index (the
    scene object that was replaced is not restored). *)
Theorem scene_keys_cycle nl s :
  Interrupt_Keyboard nl WXK_LEFT s
  = Some (set_sceneIndex s ((sceneIndex s - 1) mod 4),
          [ev_switch_scene ((sceneIndex s - 1) mod 4)]) /\
  Interrupt_Keyboard nl WXK_RIGHT s
  = Some (set_sceneIndex s ((sceneIndex s + 1) mod 4),
          [ev_switch_scene ((sceneIndex s + 1) mod 4)]) /\
  0 <= (sceneIndex s - 1) mod 4 < 4 /\ 0 <= (sceneIndex s + 1) mod 4 < 4 /\
  (0 <= sceneIndex s < 4 ->
   Interrupt_Keyboard nl WXK_LEFT (set_sceneIndex s ((sceneIndex s + 1) mod 4))
   = Some (s, [ev_switch_scene (sceneIndex s)])).
Proof.
  split; [reflexivity|]. split; [reflexivity|].
  split; [apply Z.mod_pos_bound; lia|]. split; [apply Z.mod_pos_bound; lia|].
  intros Hs. unfold Interrupt_Keyboard. cbn -[Z.modulo]. unfold changeScene, sceneList_len.
  cbn [sceneIndex set_sceneIndex].
  assert (E : ((sceneIndex s + 1) mod 4 - 1) mod 4 = sceneIndex s).
  { rewrite Zminus_mod_idemp_l. replace (sceneIndex s + 1 - 1) with (sceneIndex s) by ring.
    apply Z.mod_small. exact Hs. }
  rewrite E. destruct s; reflexivity.
Qed.

Lemma scene_keys_cycle_witness :
  (0 <= sceneIndex sketch_init < 4) /\
  Interrupt_Keyboard 3 WXK_LEFT
    (set_sceneIndex sketch_init ((sceneIndex sketch_init + 1) mod 4))
  = Some (sketch_init, [ev_switch_scene (sceneIndex sketch_init)]).
Proof.
  split; [simpl; lia|].
  apply (proj2 (proj2 (proj2 (proj2 (scene_keys_cycle 3 sketch_init))))). simpl. lia.
Defined.

(** X14: the keys p, P, s, S, d, D, a, A each flip one flag of the
    sketch; pressing the same key twice restores it. p and P emit nothing,
    the others call [updateLight] with the new flags. *)
Theorem toggle_keys_involutive nl k s :
  In k [80; 112; 83; 115; 68; 100; 65; 97] ->
  let fp := (k =? 80) || (k =? 112) in
  let fs := (k =? 83) || (k =? 115) in
  let fd := (k =? 68) || (k =? 100) in
  let fa := (k =? 65) || (k =? 97) in
  let s1 := mkSketch (lookAtPt s) (upVector s) (cameraDis s) (cameraPhi s) (cameraTheta s)
              (last_mouse_leftPosition s)
              (xorb fp (pauseScene s)) (xorb fa (ambientOn s))
              (xorb fd (diffuseOn s)) (xorb fs (specularOn s)) (sceneIndex s) in
  length (filter (fun b : bool => b) [fp; fs; fd; fa]) = 1%nat /\
  Interrupt_Keyboard nl k s = Some (s1, if fp then [] else updateLight s1) /\
  s1 <> s /\
  Interrupt_Keyboard nl k s1 = Some (s, if fp then [] else updateLight s).
Proof.
  intros Hk. destruct s as [la up d ph th lp p a df sp si].
  simpl in Hk.
  repeat (destruct Hk as [<- | Hk]); [..| contradiction]; cbv zeta;
    destruct p, a, df, sp;
    (split; [reflexivity|]; split; [reflexivity|];
     split; [intros H; injection H; intros; discriminate | reflexivity]).
Qed.

Lemma toggle_keys_involutive_witness :
  In 115 [80; 112; 83; 115; 68; 100; 65; 97] /\
  Interrupt_Keyboard 3 115 sketch_init
  = Some (mkSketch (0%R, 0%R, 0%R) (0%R, 1%R, 0%R) 6 (PI / 6) (PI / 2) (0, 0)
            false true true false 0,
          [ev_light_flags false true true; ev_update]) /\
  Interrupt_Keyboard 3 115
    (mkSketch (0%R, 0%R, 0%R) (0%R, 1%R, 0%R) 6 (PI / 6) (PI / 2) (0, 0)
       false true true false 0)
  = Some (sketch_init, [ev_light_flags true true true; ev_update]).
Proof.
  assert (Hk : In 115 [80; 112; 83; 115; 68; 100; 65; 97]) by (simpl; tauto).
  destruct (toggle_keys_involutive 3 115 sketch_init Hk) as (_ & E1 & _ & E2).
  split; [exact Hk|]. split; [exact E1 | exact E2].
Defined.

(** X15: a digit key leaves the sketch unchanged and sets light
    [(k - 49) mod 10] (key 0 is light 9) when that light exists, and does
    nothing otherwise. *)
Theorem digit_keys_select_light nl k s :
  48 <= k <= 57 ->
  Interrupt_Keyboard nl k s
  = Some (s, if (k - 49) mod 10 <? nl then [ev_light ((k - 49) mod 10); ev_update] else []).
Proof.
  intros Hk.
  assert (k = 48 \/ k = 49 \/ k = 50 \/ k = 51 \/ k = 52 \/ k = 53 \/ k = 54 \/ k = 55 \/
          k = 56 \/ k = 57) as Hc by lia.
  repeat (destruct Hc as [-> | Hc]); [..| subst k];
    lazy -[Z.ltb]; destruct (Z.ltb _ nl); reflexivity.
Qed.

Lemma digit_keys_select_light_witness :
  (48 <= 48 <= 57) /\
  Interrupt_Keyboard 3 48 sketch_init
  = Some (sketch_init, if (48 - 49) mod 10 <? 3
                       then [ev_light ((48 - 49) mod 10); ev_update] else []).
Proof.
  split; [lia|]. apply digit_keys_select_light. lia.
Defined.

(** X16: the keys r and R call [resetView], after which the camera is at
    [(0, 3, 3 sqrt 3)]. *)
Theorem reset_key_view nl k s :
  k = 82 \/ k = 114 ->
  Interrupt_Keyboard nl k s = Some (resetView s, []) /\
  getCameraPos (resetView s) = (0%R, 3%R, (3 * sqrt 3)%R).
Proof.
  intros Hk. split.
  - destruct Hk as [-> | ->]; reflexivity.
  - unfold getCameraPos, resetView, set_view. cbn [cameraTheta cameraPhi cameraDis lookAtPt].
    rewrite cos_PI2, sin_PI2, cos_PI6, sin_PI6.
    apply (f_equal2 pair); [apply (f_equal2 pair)|]; field.
Qed.

Lemma reset_key_view_witness :
  (114 = 82 \/ 114 = 114) /\
  Interrupt_Keyboard 3 114 sketch_init = Some (resetView sketch_init, []) /\
  getCameraPos (resetView sketch_init) = (0%R, 3%R, (3 * sqrt 3)%R).
Proof.
  split; [right; reflexivity|]. apply reset_key_view. right. reflexivity.
Defined.

(** X17: any other key code does nothing when it is a code point, and
    raises (in [chr]) when it is not. *)
Theorem unbound_keys nl k s :
  ~ (In k [13; 314; 315; 316; 317; 82; 114; 80; 112; 83; 115; 68; 100; 65; 97;
          48; 49; 50; 51; 52; 53; 54; 55; 56; 57]) ->
  Interrupt_Keyboard nl k s
  = if (0 <=? k) && (k <? 1114112) then Some (s, []) else None.
Proof.
  intros Hk.
  assert (N : forall c, In c [13; 314; 315; 316; 317; 82; 114; 80; 112; 83; 115; 68; 100; 65; 97;
          48; 49; 50; 51; 52; 53; 54; 55; 56; 57] -> (k =? c) = false).
  { intros c Hc. apply Z.eqb_neq. intros ->. apply Hk. exact Hc. }
  unfold Interrupt_Keyboard, py_chr_in.
  unfold WXK_RETURN, WXK_LEFT, WXK_RIGHT, WXK_UP, WXK_DOWN.
  rewrite !N by (simpl; tauto).
  destruct ((0 <=? k) && (k <? 1114112)) eqn:R; [|reflexivity].
  cbn -[Z.eqb]. rewrite !N by (simpl; tauto). cbn.
  destruct (48 <=? k) eqn:A, (k <=? 57) eqn:B; try reflexivity.
  apply Z.leb_le in A. apply Z.leb_le in B. exfalso.
  assert (k = 48 \/ k = 49 \/ k = 50 \/ k = 51 \/ k = 52 \/ k = 53 \/ k = 54 \/ k = 55 \/
          k = 56 \/ k = 57) as Hc by lia.
  apply Hk. simpl. lia.
Qed.

Lemma unbound_keys_witness :
  ~ (In (-1) [13; 314; 315; 316; 317; 82; 114; 80; 112; 83; 115; 68; 100; 65; 97;
          48; 49; 50; 51; 52; 53; 54; 55; 56; 57]) /\
  Interrupt_Keyboard 3 (-1) sketch_init = None.
Proof.
  split; [simpl; lia|].
  apply (unbound_keys 3 (-1) sketch_init). simpl. lia.
Defined.

(** X18: zero-area triangles are emitted, whose face normal is the zero
    vector, so their dot product with the average normal is 0. In every
    sphere these are the first triangles of the cells of the south-pole row
    [i = 0]; in every torus with [nsides, rings >= 1] and [b <> 0], the
    first triangles of the wrap-around cells [i = nsides]. *)
Theorem zero_area_triangles_have_zero_dot :
  (forall radius slices stacks c,
     exists st, sphere_generate radius slices stacks c = Some st /\
       forall j, 0 <= j <= s_stacks st ->
         let t := cell_tri1 (s_slices st + 1) (s_stacks st + 1) 0 j in
         In t (triangles (s_indices st)) /\
         face_normal (s_vertices st) t = (0%R, 0%R, 0%R) /\
         dot (face_normal (s_vertices st) t) (average_normal (s_vertices st) t) = 0%R) /\
  (forall inner outer ri ro nsides rings c,
     order_radii inner outer = (ri, ro) -> ((ro - ri) / 2)%R <> 0%R ->
     1 <= nsides -> 1 <= rings ->
     exists st, torus_generate inner outer nsides rings c = Some st /\
       forall j, 0 <= j <= rings ->
         let t := cell_tri1 (nsides + 1) (rings + 1) nsides j in
         In t (triangles (t_indices st)) /\
         face_normal (t_vertices st) t = (0%R, 0%R, 0%R) /\
         dot (face_normal (t_vertices st) t) (average_normal (t_vertices st) t) = 0%R).
Proof.
  split.
  - intros radius slices stacks c. exists (sphere_mesh radius slices stacks c).
    split; [apply sphere_generate_eq|].
    intros j Hj t. subst t.
    destruct (sphere_pole_tri_zero radius slices stacks c j Hj) as [I F].
    split; [exact I|]. split; [exact F|]. rewrite F. apply dot_zero_l.
  - intros inner outer ri ro nsides rings c Ho Hb Hn Hr.
    exists (torus_mesh ri ro nsides rings c).
    split; [apply torus_generate_mesh; assumption|].
    intros j Hj t.
    assert (F : face_normal (t_vertices (torus_mesh ri ro nsides rings c)) t = (0%R, 0%R, 0%R)).
    { subst t. unfold cell_tri1. apply face_normal_ab.
      rewrite Z.mod_same by lia. apply torus_seam_u; lia. }
    split; [apply torus_tri1_in; lia|]. split; [exact F|]. rewrite F. apply dot_zero_l.
Qed.

Lemma zero_area_triangles_have_zero_dot_witness :
  exists st, torus_generate 0.25 0.5 4 4 sample_color = Some st /\
    let t := cell_tri1 (4 + 1) (4 + 1) 4 0 in
    In t (triangles (t_indices st)) /\
    dot (face_normal (t_vertices st) t) (average_normal (t_vertices st) t) = 0%R.
Proof.
  assert (Ho : order_radii 0.25 0.5 = (0.25%R, 0.5%R)) by (apply order_radii_le; lra).
  assert (Hb : ((0.5 - 0.25) / 2)%R <> 0%R) by lra.
  destruct (proj2 zero_area_triangles_have_zero_dot 0.25%R 0.5%R 0.25%R 0.5%R 4 4
              sample_color Ho Hb ltac:(lia) ltac:(lia)) as [st [E H]].
  exists st. split; [exact E|].
  destruct (H 0 ltac:(lia)) as [I [_ D]]. split; assumption.
Defined.
